(** * The synchronized playback-tick tracker of quodlibet's seek bar plugin

    A shallow embedding of [SynchronizedTimeTracker]
    (quodlibet/ext/events/seekbar.py) together with the two collaborators
    its methods talk to: the GLib main loop, which owns the timeout
    sources, and the player, which owns the playback position, the pause
    flag and the signal connections.

    Python integers are unbounded, so positions, seconds and intervals are
    [Z]; [//] and [%] with the positive divisor 1000 are [Z.div] and
    [Z.modulo] (both floor, the remainder lies in [0, 1000)). *)

From Stdlib Require Import ZArith QArith Qabs Bool List Lia Sorted.
From stdpp Require Import base option gmap list strings.

Local Open Scope Z_scope.

(** ** The collaborators *)

(** The names of the four player signals the tracker subscribes to. *)
Inductive PlayerSignal : Type :=
| sig_paused
| sig_unpaused
| sig_seek
| sig_song_started.

(** The bound methods the tracker hands to [player.connect]. *)
Inductive Method : Type :=
| m_disable
| m_enable
| m_seek
| m_song_started.

(** The only signal the tracker itself declares in [__gsignals__]. *)
Inductive TrackerSignal : Type :=
| tick.

Definition PlayerSignal_eqb (a b : PlayerSignal) : bool :=
  match a, b with
  | sig_paused, sig_paused
  | sig_unpaused, sig_unpaused
  | sig_seek, sig_seek
  | sig_song_started, sig_song_started => true
  | _, _ => false
  end.

(** Modelled from the spec: the player object, whose class is not part of
    the sources.  It exposes the current playback position in
    milliseconds ([get_position]), the pause flag ([paused]) and pushes
    the events [paused], [unpaused], [seek] and [song-started] to the
    handlers connected to them.  [connect] hands out increasing handler
    ids; [disconnect] forgets a handler, and forgetting an id that is not
    connected changes nothing. *)
Record Player : Type := mkPlayer {
  paused : bool;
  position : Z;
  handlers : list (nat * (PlayerSignal * Method));
  next_handler_id : nat
}.

(** A timeout source of the main loop: the interval it was armed with and
    the user data passed to its callback.  Every source of this model has
    the tracker's [__run] as its callback. *)
Record Source : Type := mkSource {
  src_interval : Z;
  src_data : Z
}.

(** Modelled from the spec: the timer primitive of the host event loop
    (GLib's [timeout_add] and [source_remove]), which is not part of the
    sources.  [timeout_add] attaches a source under a fresh id; the source
    keeps firing with the interval it was armed with for as long as its
    callback returns true, is destroyed when the callback returns anything
    else, and never fires once removed. *)
Record MainLoop : Type := mkMainLoop {
  sources : gmap nat Source;
  next_source_id : nat
}.

(** ** The tracker *)

(** The instance attributes assigned in [__init__]. *)
Record Tracker : Type := mkTracker {
  offset : Z;
  max_delta : Z;
  source_id : option nat;
  tick_prev_sec : Z;
  sigs : list nat
}.

(** Everything a method of the tracker can read or write, with two
    histories kept for the statements below, newest entry first:
    [emitted] has every signal the tracker emitted and [armed] every
    interval handed to [timeout_add], each with the playback position at
    that moment. *)
Record World : Type := mkWorld {
  self : Tracker;
  glib : MainLoop;
  player : Player;
  emitted : list (TrackerSignal * Z);
  armed : list (Z * Z)
}.

(** ** A state monad over [World] *)

Definition M (A : Type) : Type := World -> A * World.

Definition ret {A : Type} (a : A) : M A := fun w => (a, w).

Definition bind {A B : Type} (m : M A) (k : A -> M B) : M B :=
  fun w => let (a, w') := m w in k a w'.

Definition exec {A : Type} (m : M A) (w : World) : World := snd (m w).

Definition eval {A : Type} (m : M A) (w : World) : A := fst (m w).

Declare Scope tracker_scope.
Delimit Scope tracker_scope with tracker.
Notation "x <- c1 ;; c2" := (bind c1 (fun x => c2))
  (at level 100, c1 at next level, right associativity) : tracker_scope.
Notation "c1 ;; c2" := (bind c1 (fun _ => c2))
  (at level 100, right associativity) : tracker_scope.
Local Open Scope tracker_scope.

Definition get_self : M Tracker := fun w => (self w, w).

Definition put_self (t : Tracker) : M unit :=
  fun w => (tt, mkWorld t (glib w) (player w) (emitted w) (armed w)).

Definition set_source_id (v : option nat) : M unit :=
  t <- get_self ;;
  put_self (mkTracker (offset t) (max_delta t) v (tick_prev_sec t) (sigs t)).

Definition set_tick_prev_sec (v : Z) : M unit :=
  t <- get_self ;;
  put_self (mkTracker (offset t) (max_delta t) (source_id t) v (sigs t)).

Definition set_sigs (v : list nat) : M unit :=
  t <- get_self ;;
  put_self (mkTracker (offset t) (max_delta t) (source_id t) (tick_prev_sec t) v).

(** Modelled from the spec: [self._player.get_position()], the
    synchronous read of the player's position in milliseconds. *)
Definition get_position : M Z := fun w => (position (player w), w).

(** Modelled from the spec: [player.paused], the player's pause flag. *)
Definition get_paused : M bool := fun w => (paused (player w), w).

(** Modelled from the spec: [player.connect(signal, method)] subscribes
    the method to the player's signal and returns the handler id. *)
Definition connect (s : PlayerSignal) (m : Method) : M nat :=
  fun w =>
    let p := player w in
    let id := next_handler_id p in
    (id, mkWorld (self w) (glib w)
           (mkPlayer (paused p) (position p)
              (handlers p ++ [(id, (s, m))]) (S id))
           (emitted w) (armed w)).

(** Modelled from the spec: [self._player.disconnect(signal_id)]
    unsubscribes the handler with that id, if there is one. *)
Definition disconnect (id : nat) : M unit :=
  fun w =>
    let p := player w in
    (tt, mkWorld (self w) (glib w)
           (mkPlayer (paused p) (position p)
              (List.filter (fun h => negb (Nat.eqb (fst h) id)) (handlers p))
              (next_handler_id p))
           (emitted w) (armed w)).

(** Modelled from the spec: [GLib.timeout_add(interval, self.__run, data)]
    arms a wake-up under a fresh id.  The call is also entered in the
    [armed] history. *)
Definition timeout_add (interval data : Z) : M nat :=
  fun w =>
    let l := glib w in
    let id := next_source_id l in
    (id, mkWorld (self w)
           (mkMainLoop (<[id := mkSource interval data]> (sources l)) (S id))
           (player w) (emitted w)
           ((interval, position (player w)) :: armed w)).

(** Modelled from the spec: [GLib.source_remove(id)] cancels the
    wake-up, which then never fires. *)
Definition source_remove (id : nat) : M unit :=
  fun w =>
    let l := glib w in
    (tt, mkWorld (self w)
           (mkMainLoop (delete id (sources l)) (next_source_id l))
           (player w) (emitted w) (armed w)).

(** [self.emit("tick")], entered in the [emitted] history.  The handlers
    connected to [tick] belong to the widget and do not touch the
    tracker. *)
Definition emit (s : TrackerSignal) : M unit :=
  fun w =>
    (tt, mkWorld (self w) (glib w) (player w)
           ((s, position (player w)) :: emitted w) (armed w)).

Module SynchronizedTimeTracker.

(** [__song_started(self, player, song)] *)
Definition __song_started : M unit :=
  t <- get_self ;;
  if tick_prev_sec t =? 1 then set_tick_prev_sec 0 else ret tt.

(** [__disable(self, *args)] *)
Definition __disable : M unit :=
  t <- get_self ;;
  match source_id t with
  | Some id => source_remove id ;; set_source_id None
  | None => ret tt
  end.

(** [__enable(self, *args)] *)
Definition __enable : M unit :=
  t <- get_self ;;
  match source_id t with
  | None =>
      position <- get_position ;;
      let interval := 1000 + offset t - (position mod 1000) in
      id <- timeout_add interval interval ;;
      set_source_id (Some id)
  | Some _ => ret tt
  end.

(** [restart(self, *args)] *)
Definition restart : M unit :=
  __disable ;; __enable.

(** [__seek(self, player, song, seek)] *)
Definition __seek (seek : Z) : M unit :=
  set_tick_prev_sec (seek / 1000) ;;
  p <- get_paused ;;
  if negb p then restart else ret tt.

(** [__run(self, last_interval)]; the result is [true] for Python's
    [True] and [false] for the implicit [None]. *)
Definition __run (last_interval : Z) : M bool :=
  position <- get_position ;;
  let current_sec := position / 1000 in
  t <- get_self ;;
  (if negb (current_sec =? tick_prev_sec t) && negb (current_sec =? 0)
   then emit tick ;; set_tick_prev_sec current_sec
   else ret tt) ;;
  t <- get_self ;;
  let interval := 1000 + offset t - (position mod 1000) in
  if Z.abs (last_interval - interval) >? max_delta t
  then id <- timeout_add interval interval ;;
       set_source_id (Some id) ;;
       ret false
  else ret true.

(** The loop [for signal_id in self.__sigs: ...disconnect(signal_id)]. *)
Fixpoint disconnect_all (ids : list nat) : M unit :=
  match ids with
  | [] => ret tt
  | signal_id :: rest => disconnect signal_id ;; disconnect_all rest
  end.

(** [destroy(self)] *)
Definition destroy : M unit :=
  __disable ;;
  t <- get_self ;;
  disconnect_all (sigs t).

(** [__init__(self, player)]: the instance attributes are created on top
    of the main loop and the player found in the world. *)
Definition __init__ : M unit :=
  put_self (mkTracker 10 20 None 0 []) ;;
  h1 <- connect sig_paused m_disable ;;
  h2 <- connect sig_unpaused m_enable ;;
  h3 <- connect sig_seek m_seek ;;
  h4 <- connect sig_song_started m_song_started ;;
  set_sigs [h1; h2; h3; h4] ;;
  p <- get_paused ;;
  if negb p then __enable else ret tt.

End SynchronizedTimeTracker.

Import SynchronizedTimeTracker.

(** ** The event loop around the tracker *)

(** Modelled from the spec: the player moves on, playback reaches
    [pos]. *)
Definition set_position (pos : Z) : M unit :=
  fun w =>
    let p := player w in
    (tt, mkWorld (self w) (glib w)
           (mkPlayer (paused p) pos (handlers p) (next_handler_id p))
           (emitted w) (armed w)).

(** Modelled from the spec: the player's pause flag changes. *)
Definition set_paused (b : bool) : M unit :=
  fun w =>
    let p := player w in
    (tt, mkWorld (self w) (glib w)
           (mkPlayer b (position p) (handlers p) (next_handler_id p))
           (emitted w) (armed w)).

(** Calling a connected method with the argument of the signal (only
    [seek] carries one the tracker looks at). *)
Definition call (m : Method) (arg : Z) : M unit :=
  match m with
  | m_disable => __disable
  | m_enable => __enable
  | m_seek => __seek arg
  | m_song_started => __song_started
  end.

Fixpoint call_handlers (s : PlayerSignal) (arg : Z)
    (hs : list (nat * (PlayerSignal * Method))) : M unit :=
  match hs with
  | [] => ret tt
  | (_, (s', m)) :: rest =>
      (if PlayerSignal_eqb s s' then call m arg else ret tt) ;;
      call_handlers s arg rest
  end.

(** Modelled from the spec: the player pushes an event,
    [player.emit(signal, ...)]; the handlers connected to the signal run
    in the order of their connection. *)
Definition player_emit (s : PlayerSignal) (arg : Z) : M unit :=
  fun w => call_handlers s arg (handlers (player w)) w.

(** Modelled from the spec: the main loop dispatches the timeout source
    [id].  Its callback runs with the user data, and the source is
    destroyed unless the callback asks to continue.  A source that is no
    longer attached never fires. *)
Definition dispatch (id : nat) : M unit :=
  fun w =>
    match sources (glib w) !! id with
    | Some src =>
        (continue <- __run (src_data src) ;;
         if continue : bool then ret tt else source_remove id) w
    | None => (tt, w)
    end.

(** What can happen to a tracker once it exists: a timer event of the
    main loop while the player is at [pos]; the player pausing, resuming,
    seeking to [seek] or starting a track; the widget destroying the
    tracker.  The events that let a handler read the position carry the
    position it reads. *)
Inductive Event : Type :=
| ev_timeout (id : nat) (pos : Z)
| ev_paused
| ev_unpaused (pos : Z)
| ev_seek (seek pos : Z)
| ev_song_started
| ev_destroy.

(** Modelled from the spec: how the collaborators deliver an event.  The
    player changes its pause flag together with the [paused] and
    [unpaused] signals; handlers and timer callbacks run one after the
    other, each to completion. *)
Definition handle (e : Event) : M unit :=
  match e with
  | ev_timeout id pos => set_position pos ;; dispatch id
  | ev_paused => set_paused true ;; player_emit sig_paused 0
  | ev_unpaused pos =>
      set_position pos ;; set_paused false ;; player_emit sig_unpaused 0
  | ev_seek seek pos => set_position pos ;; player_emit sig_seek seek
  | ev_song_started => player_emit sig_song_started 0
  | ev_destroy => destroy
  end.

Definition step (e : Event) (w : World) : World := exec (handle e) w.

Definition run (es : list Event) (w : World) : World :=
  fold_left (fun w e => step e w) es w.

(** The world just before the tracker is constructed: no timeout source,
    no handler connected, nothing logged. *)
Definition boot (n0 h0 : nat) (paused0 : bool) (pos0 : Z) : World :=
  mkWorld (mkTracker 0 0 None 0 [])
          (mkMainLoop ∅ n0)
          (mkPlayer paused0 pos0 [] h0)
          [] [].

(** Constructing the tracker on a player ([SeekBar.__init__] does it). *)
Definition attach (n0 h0 : nat) (paused0 : bool) (pos0 : Z) : World :=
  exec __init__ (boot n0 h0 paused0 pos0).

Inductive reachable : World -> Prop :=
| reach_attach n0 h0 paused0 pos0 :
    reachable (attach n0 h0 paused0 pos0)
| reach_step w e :
    reachable w -> reachable (step e w).

(** The interval of the wake-up the tracker currently holds, if any. *)
Definition pending_interval (w : World) : option Z :=
  match source_id (self w) with
  | Some id => src_interval <$> sources (glib w) !! id
  | None => None
  end.

Definition ticked (w w' : World) : Prop :=
  emitted w' = (tick, position (player w')) :: emitted w.

Definition silent (w w' : World) : Prop :=
  emitted w' = emitted w.

(** ** Notions used by the statements *)

(** The tracker is attached while its handlers are connected. *)
Definition attached (w : World) : Prop := handlers (player w) <> [].

(** The wake-up the tracker holds fires while the player is at [pos]. *)
Definition fire (pos : Z) (w : World) : World :=
  match source_id (self w) with
  | Some id => step (ev_timeout id pos) w
  | None => w
  end.

(** A run of timer firings, each given by the source that fires and the
    position read at that firing. *)
Definition timeouts (fs : list (nat * Z)) : list Event :=
  map (fun f => ev_timeout (fst f) (snd f)) fs.

(** The timer callback is called with [last_interval] while the player
    is at [pos]; [calls] is a run of such calls, each given as
    [(last_interval, pos)]. *)
Definition call_run (last_interval pos : Z) (w : World) : World :=
  exec (set_position pos ;; __run last_interval) w.

Definition calls (fs : list (Z * Z)) (w : World) : World :=
  fold_left (fun w f => call_run (fst f) (snd f) w) fs w.

Definition seconds (log : list (TrackerSignal * Z)) : list Z :=
  map (fun t => snd t / 1000) log.

Definition is_unpaused (e : Event) : bool :=
  match e with
  | ev_unpaused _ => true
  | _ => false
  end.

(** The two ways a firing of source [id] can end.  [rearmed]: the source
    is gone and a new one is armed with [ideal], which is also the
    interval remembered for its own firing.  [repeated]: the main loop is
    left as it was, so the source fires again after its old interval. *)
Definition rearmed (id : nat) (ideal : Z) (w w' : World) : Prop :=
  sources (glib w') !! id = None /\
  sources (glib w') !! next_source_id (glib w) = Some (mkSource ideal ideal) /\
  source_id (self w') = Some (next_source_id (glib w)) /\
  armed w' = (ideal, position (player w)) :: armed w.

Definition repeated (w w' : World) : Prop :=
  glib w' = glib w /\
  source_id (self w') = source_id (self w) /\
  armed w' = armed w.

(** The end-to-end scenario with the next interval read as the freshly
    computed one. *)
Definition end_to_end_recomputed (n0 h0 : nat) : Prop :=
  let w0 := attach n0 h0 false 0 in
  let w1 := fire 1005 w0 in
  pending_interval w0 = Some 1010 /\
  ticked w0 w1 /\
  tick_prev_sec (self w1) = 1 /\
  pending_interval w1 = Some (1000 + 10 - 5).

(** ** The invariant of the reachable worlds *)

(** The four connections [__init__] makes when the first free handler id
    is [h], and the ids it keeps in [__sigs]. *)
Definition connections (h : nat) : list (nat * (PlayerSignal * Method)) :=
  [ (h, (sig_paused, m_disable));
    (S h, (sig_unpaused, m_enable));
    (S (S h), (sig_seek, m_seek));
    (S (S (S h)), (sig_song_started, m_song_started)) ].

Definition handler_ids (h : nat) : list nat :=
  [h; S h; S (S h); S (S (S h))].

Definition intervals_ok (log : list (Z * Z)) : Prop :=
  Forall (fun a => fst a = 1010 - snd a mod 1000) log.

(** A reachable world has one of three shapes: playing with exactly one
    source, the one the tracker holds; paused with no source; or detached
    with no source and no handler. *)
Inductive shape : World -> Prop :=
| shape_armed id i prev nid pos nh em ar h :
    (id < nid)%nat ->
    intervals_ok ar ->
    shape (mkWorld (mkTracker 10 20 (Some id) prev (handler_ids h))
                   (mkMainLoop {[ id := mkSource i i ]} nid)
                   (mkPlayer false pos (connections h) nh)
                   em ar)
| shape_paused prev nid pos nh em ar h :
    intervals_ok ar ->
    shape (mkWorld (mkTracker 10 20 None prev (handler_ids h))
                   (mkMainLoop ∅ nid)
                   (mkPlayer true pos (connections h) nh)
                   em ar)
| shape_detached prev nid pz pos nh em ar h :
    intervals_ok ar ->
    shape (mkWorld (mkTracker 10 20 None prev (handler_ids h))
                   (mkMainLoop ∅ nid)
                   (mkPlayer pz pos [] nh)
                   em ar).

(** Worlds in which no wake-up can fire: [dormant] while the player is
    paused or the tracker detached, [dead] once it is detached. *)
Definition dormant (w : World) : Prop :=
  shape w /\
  source_id (self w) = None /\
  (paused (player w) = true \/ handlers (player w) = []).

Definition dead (w : World) : Prop :=
  shape w /\ handlers (player w) = [].

(** ** Playback in step with the timer *)

(** The pending wake-up fires exactly when its interval has elapsed, the
    player having advanced by as many milliseconds as the timer waited. *)
Definition playback_step (w : World) : World :=
  match pending_interval w with
  | Some interval => fire (position (player w) + interval) w
  | None => w
  end.

Definition playback (n : nat) (w : World) : World :=
  Nat.iter n playback_step w.

(** [counts_down s s0 l]: [l] lists the seconds [s], [s - 1], ...,
    [s0 + 1], each once, newest first. *)
Inductive counts_down : Z -> Z -> list Z -> Prop :=
| counts_down_nil s0 : counts_down s0 s0 []
| counts_down_cons s s0 l :
    counts_down s s0 l -> counts_down (s + 1) s0 ((s + 1) :: l).

(** What holds of a world during playback in step with the timer that
    started in second [s0]: the wake-up is within the threshold of the
    ideal interval; it was armed at this very position or the last firing
    came at most 30 ms after a full second; every second since [s0] has
    its tick, and every tick came at most 30 ms after its second began. *)
Definition in_step (s0 : Z) (w : World) : Prop :=
  exists id i,
    source_id (self w) = Some id /\
    sources (glib w) = {[ id := mkSource i i ]} /\
    (id < next_source_id (glib w))%nat /\
    offset (self w) = 10 /\ max_delta (self w) = 20 /\
    0 <= s0 /\ 0 <= position (player w) /\
    Z.abs (i - (1010 - position (player w) mod 1000)) <= 20 /\
    (i = 1010 - position (player w) mod 1000 \/
     position (player w) mod 1000 <= 30) /\
    (tick_prev_sec (self w) = position (player w) / 1000 \/
     (position (player w) / 1000 = s0 /\ tick_prev_sec (self w) = 0 /\
      i = 1010 - position (player w) mod 1000)) /\
    counts_down (position (player w) / 1000) s0 (seconds (emitted w)) /\
    Forall (fun t => snd t mod 1000 <= 30) (emitted w).

(** * The seek bar widget

    [SeekBar] of the same file: the attributes it keeps, the widgets it
    drives and the collaborators it talks to.  Its tracker is the [World]
    modelled above. *)

Module SeekBar.

(** Python numbers as the bar meets them: the scale works with floats,
    positions are ints, and track lengths may be either.  The operations
    are those the bar applies, taken as an interface: [int z] is the int
    [z], [num_truediv] is [/], [num_gt] is [>], [num_ne] is [!=] and
    [milli] the literal [0.001]. *)
Class Numbers : Type := mkNumbers {
  num : Type;
  int : Z -> num;
  num_ne : num -> num -> bool;
  num_mul : num -> num -> num;
  num_sub : num -> num -> num;
  num_truediv : num -> num -> num;
  num_abs : num -> num;
  num_gt : num -> num -> bool;
  milli : num
}.

(** The widgets that are packed into the bar and into the box of the
    elapsed button. *)
Inductive Widget : Type :=
| w_scale
| w_elapsed_label
| w_remaining_label.

(** The handlers the bar connects to its scale and later blocks and
    unblocks. *)
Inductive ScaleHandler : Type :=
| h_button_press_event
| h_change_value
| h_value_changed.

(** The exceptions a method of the bar can end with. *)
Inductive Exn : Type :=
| ValueError
| IndexError
| AttributeError
| TypeError.

Inductive Res (A : Type) : Type :=
| Ok (a : A)
| Raise (e : Exn).

Arguments Ok {A} a.
Arguments Raise {A} e.

Declare Scope bar_scope.
Delimit Scope bar_scope with bar.

Section WithNumbers.

Context `{Numbers}.

(** The calls the bar makes on its [Gtk.Scale]. *)
Inductive ScaleCall : Type :=
| set_value (v : num)
| set_range (lower upper : num).

(** Modelled from the spec: a [TimeLabel], of which the bar uses
    [set_time] and [set_disabled]; [None] stands for a time the bar has
    not set yet. *)
Record TimeLabel : Type := mkTimeLabel {
  label_time : option num;
  label_disabled : bool
}.

(** The attributes [SeekBar.__init__] assigns;
    [__pressed_lmb_scale_value] does not exist before the first button
    press, which is [None] here. *)
Record Bar : Type := mkBar {
  _timer_modes : list string;
  c_timer_mode : string;
  __timer_mode : string;
  __pressed_lmb : bool;
  __source_id : option nat;
  __pressed_lmb_scale_value : option num
}.

(** The widgets of the bar: the children of the bar itself and of
    [self.box], the two labels, the sensitivity of the bar, how many times
    each handler of the scale is blocked, and the scale.  The scale is
    only driven: the calls made on it are kept, newest first, and what
    [get_value] returns is whatever the scale shows at that moment. *)
Record Widgets : Type := mkWidgets {
  children : list Widget;
  box_children : list Widget;
  elapsed_label : TimeLabel;
  remaining_label : TimeLabel;
  sensitive : bool;
  blocked_button_press_event : nat;
  blocked_change_value : nat;
  blocked_value_changed : nat;
  scale_value : num;
  scale_calls : list ScaleCall
}.

(** A timeout source of the bar: [GLib.timeout_add(200,
    self.__scroll_timeout, value, player)]. *)
Record ScrollSource : Type := mkScrollSource {
  scroll_interval : Z;
  scroll_value : num
}.

(** Modelled from the spec: what the bar uses of the rest of the
    application.  [config] is the configuration, by section and option;
    [scroll_sources] are the timeout sources the bar has armed (the main
    loop hands out fresh ids, so they are kept apart from the tracker's);
    the player is seekable or not, has a current song with its
    ["~#length"] or none, and records the positions it was asked to seek
    to, newest first. *)
Record Env : Type := mkEnv {
  config : gmap (string * string) string;
  scroll_sources : gmap nat ScrollSource;
  next_scroll_id : nat;
  seekable : bool;
  info : option num;
  seeks : list num
}.

Record Gui : Type := mkGui {
  tracker : World;
  bar : Bar;
  widgets : Widgets;
  env : Env
}.

(** ** A state and exception monad over [Gui] *)

Definition B (A : Type) : Type := Gui -> Res A * Gui.

Definition ret {A : Type} (a : A) : B A := fun g => (Ok a, g).

Definition raise {A : Type} (e : Exn) : B A := fun g => (Raise e, g).

Definition bind {A C : Type} (m : B A) (k : A -> B C) : B C :=
  fun g =>
    match m g with
    | (Ok a, g') => k a g'
    | (Raise e, g') => (Raise e, g')
    end.

Definition exec {A : Type} (m : B A) (g : Gui) : Gui := snd (m g).

Definition outcome {A : Type} (m : B A) (g : Gui) : Res A := fst (m g).

Notation "x <- c1 ;; c2" := (bind c1 (fun x => c2))
  (at level 100, c1 at next level, right associativity) : bar_scope.
Notation "c1 ;; c2" := (bind c1 (fun _ => c2))
  (at level 100, right associativity) : bar_scope.
Local Open Scope bar_scope.

Definition get_bar : B Bar := fun g => (Ok (bar g), g).

Definition put_bar (b : Bar) : B unit :=
  fun g => (Ok tt, mkGui (tracker g) b (widgets g) (env g)).

Definition get_widgets : B Widgets := fun g => (Ok (widgets g), g).

Definition put_widgets (ws : Widgets) : B unit :=
  fun g => (Ok tt, mkGui (tracker g) (bar g) ws (env g)).

Definition get_env : B Env := fun g => (Ok (env g), g).

Definition put_env (e : Env) : B unit :=
  fun g => (Ok tt, mkGui (tracker g) (bar g) (widgets g) e).

(** A method of the tracker, run on the tracker of the bar. *)
Definition on_tracker {A : Type} (m : M A) : B A :=
  fun g =>
    let (a, w) := m (tracker g) in
    (Ok a, mkGui w (bar g) (widgets g) (env g)).

(** *** Attribute assignments *)

Definition set___timer_mode (v : string) : B unit :=
  b <- get_bar ;;
  put_bar (mkBar (_timer_modes b) (c_timer_mode b) v (__pressed_lmb b)
             (__source_id b) (__pressed_lmb_scale_value b)).

Definition set___pressed_lmb (v : bool) : B unit :=
  b <- get_bar ;;
  put_bar (mkBar (_timer_modes b) (c_timer_mode b) (__timer_mode b) v
             (__source_id b) (__pressed_lmb_scale_value b)).

Definition set___source_id (v : option nat) : B unit :=
  b <- get_bar ;;
  put_bar (mkBar (_timer_modes b) (c_timer_mode b) (__timer_mode b)
             (__pressed_lmb b) v (__pressed_lmb_scale_value b)).

Definition set___pressed_lmb_scale_value (v : num) : B unit :=
  b <- get_bar ;;
  put_bar (mkBar (_timer_modes b) (c_timer_mode b) (__timer_mode b)
             (__pressed_lmb b) (__source_id b) (Some v)).

(** *** The widgets *)

Definition get_name (w : Widget) : string :=
  match w with
  | w_scale => "seek-bar"
  | w_elapsed_label => "elapsed-label"
  | w_remaining_label => "remaining-label"
  end.

Definition is_TimeLabel (w : Widget) : bool :=
  match w with
  | w_scale => false
  | w_elapsed_label | w_remaining_label => true
  end.

Definition Widget_eqb (a b : Widget) : bool :=
  match a, b with
  | w_scale, w_scale
  | w_elapsed_label, w_elapsed_label
  | w_remaining_label, w_remaining_label => true
  | _, _ => false
  end.

(** Modelled from the spec: [find_widgets(container, TimeLabel)] of
    [quodlibet.qltk], the time labels inside a container; both containers
    hold plain widgets only. *)
Definition find_widgets (container : list Widget) : list Widget :=
  List.filter is_TimeLabel container.

(** [container.remove(elem)] and [container.pack_start(elem, ...)] of
    GTK: the child leaves the container, or joins it after the children
    packed before. *)
Definition remove (elem : Widget) (container : list Widget) : list Widget :=
  List.filter (fun w => negb (Widget_eqb w elem)) container.

Definition pack_start (elem : Widget) (container : list Widget)
  : list Widget :=
  container ++ [elem].

Definition set_children (v : list Widget) : B unit :=
  ws <- get_widgets ;;
  put_widgets
    (mkWidgets v (box_children ws) (elapsed_label ws) (remaining_label ws)
       (sensitive ws) (blocked_button_press_event ws)
       (blocked_change_value ws) (blocked_value_changed ws)
       (scale_value ws) (scale_calls ws)).

Definition set_box_children (v : list Widget) : B unit :=
  ws <- get_widgets ;;
  put_widgets
    (mkWidgets (children ws) v (elapsed_label ws) (remaining_label ws)
       (sensitive ws) (blocked_button_press_event ws)
       (blocked_change_value ws) (blocked_value_changed ws)
       (scale_value ws) (scale_calls ws)).

Definition set_elapsed_label (v : TimeLabel) : B unit :=
  ws <- get_widgets ;;
  put_widgets
    (mkWidgets (children ws) (box_children ws) v (remaining_label ws)
       (sensitive ws) (blocked_button_press_event ws)
       (blocked_change_value ws) (blocked_value_changed ws)
       (scale_value ws) (scale_calls ws)).

Definition set_remaining_label (v : TimeLabel) : B unit :=
  ws <- get_widgets ;;
  put_widgets
    (mkWidgets (children ws) (box_children ws) (elapsed_label ws) v
       (sensitive ws) (blocked_button_press_event ws)
       (blocked_change_value ws) (blocked_value_changed ws)
       (scale_value ws) (scale_calls ws)).

(** [self.set_sensitive(v)] *)
Definition set_sensitive (v : bool) : B unit :=
  ws <- get_widgets ;;
  put_widgets
    (mkWidgets (children ws) (box_children ws) (elapsed_label ws)
       (remaining_label ws) v (blocked_button_press_event ws)
       (blocked_change_value ws) (blocked_value_changed ws)
       (scale_value ws) (scale_calls ws)).

Definition set_blocked (h : ScaleHandler) (f : nat -> nat) : B unit :=
  ws <- get_widgets ;;
  put_widgets
    (mkWidgets (children ws) (box_children ws) (elapsed_label ws)
       (remaining_label ws) (sensitive ws)
       (match h with
        | h_button_press_event => f (blocked_button_press_event ws)
        | _ => blocked_button_press_event ws
        end)
       (match h with
        | h_change_value => f (blocked_change_value ws)
        | _ => blocked_change_value ws
        end)
       (match h with
        | h_value_changed => f (blocked_value_changed ws)
        | _ => blocked_value_changed ws
        end)
       (scale_value ws) (scale_calls ws)).

(** Modelled from the spec: [GObject.signal_handler_block] and
    [signal_handler_unblock].  A handler blocked n times runs again after
    n unblocks; unblocking a handler that is not blocked changes
    nothing. *)
Definition signal_handler_block (h : ScaleHandler) : B unit :=
  set_blocked h S.

Definition signal_handler_unblock (h : ScaleHandler) : B unit :=
  set_blocked h Nat.pred.

Definition blocked (h : ScaleHandler) (ws : Widgets) : nat :=
  match h with
  | h_button_press_event => blocked_button_press_event ws
  | h_change_value => blocked_change_value ws
  | h_value_changed => blocked_value_changed ws
  end.

(** [self.scale.get_value()] *)
Definition scale_get_value : B num :=
  fun g => (Ok (scale_value (widgets g)), g).

Definition scale_call (c : ScaleCall) : B unit :=
  ws <- get_widgets ;;
  put_widgets
    (mkWidgets (children ws) (box_children ws) (elapsed_label ws)
       (remaining_label ws) (sensitive ws) (blocked_button_press_event ws)
       (blocked_change_value ws) (blocked_value_changed ws)
       (scale_value ws) (c :: scale_calls ws)).

(** [self.scale.set_value(v)] and [self.scale.set_range(lower, upper)] *)
Definition scale_set_value (v : num) : B unit := scale_call (set_value v).

Definition scale_set_range (lower upper : num) : B unit :=
  scale_call (set_range lower upper).

(** [label.set_time(v)] and [label.set_disabled(v)] on the two labels. *)
Definition elapsed_set_time (v : num) : B unit :=
  ws <- get_widgets ;;
  set_elapsed_label (mkTimeLabel (Some v) (label_disabled (elapsed_label ws))).

Definition remaining_set_time (v : num) : B unit :=
  ws <- get_widgets ;;
  set_remaining_label
    (mkTimeLabel (Some v) (label_disabled (remaining_label ws))).

Definition elapsed_set_disabled (v : bool) : B unit :=
  ws <- get_widgets ;;
  set_elapsed_label (mkTimeLabel (label_time (elapsed_label ws)) v).

Definition remaining_set_disabled (v : bool) : B unit :=
  ws <- get_widgets ;;
  set_remaining_label (mkTimeLabel (label_time (remaining_label ws)) v).

(** *** The collaborators *)

(** Modelled from the spec: [config.get(section, option)], which raises
    [NoOptionError] when the option is not set ([None] here), and
    [config.set(section, option, value)]. *)
Definition config_get (sect opt : string) : B (option string) :=
  fun g => (Ok (config (env g) !! (sect, opt)), g).

Definition config_set (sect opt value : string) : B unit :=
  e <- get_env ;;
  put_env (mkEnv (<[(sect, opt) := value]> (config e))
             (scroll_sources e) (next_scroll_id e) (seekable e) (info e)
             (seeks e)).

(** Modelled from the spec: [GLib.timeout_add(interval,
    self.__scroll_timeout, value, player)] and [GLib.source_remove(id)]
    for the sources of the bar. *)
Definition timeout_add (interval : Z) (value : num) : B nat :=
  fun g =>
    let e := env g in
    let id := next_scroll_id e in
    (Ok id,
     mkGui (tracker g) (bar g) (widgets g)
       (mkEnv (config e)
          (<[id := mkScrollSource interval value]> (scroll_sources e))
          (S id) (seekable e) (info e) (seeks e))).

Definition source_remove (id : nat) : B unit :=
  e <- get_env ;;
  put_env (mkEnv (config e) (delete id (scroll_sources e))
             (next_scroll_id e) (seekable e) (info e) (seeks e)).

(** Modelled from the spec: [player.seekable]; [player.info], the
    current song or [None], and [player.info("~#length")], which fails
    with [TypeError] when there is no song to call; [player.seek(pos)],
    recorded (the [seek] signal the player answers with is an event of
    its own); [player.get_position()], read from the player the tracker
    listens to. *)
Definition player_seekable : B bool := fun g => (Ok (seekable (env g)), g).

Definition player_has_info : B bool :=
  fun g => (Ok (match info (env g) with Some _ => true | None => false end), g).

Definition player_info_length : B num :=
  fun g =>
    match info (env g) with
    | Some length => (Ok length, g)
    | None => (Raise TypeError, g)
    end.

Definition player_seek (pos : num) : B unit :=
  e <- get_env ;;
  put_env (mkEnv (config e) (scroll_sources e) (next_scroll_id e)
             (seekable e) (info e) (pos :: seeks e)).

Definition player_get_position : B Z :=
  fun g => (Ok (position (player (tracker g))), g).

(** *** Python lists *)

(** [l.index(x)]: the first index of [x], or [ValueError]. *)
Fixpoint list_index (x : string) (l : list string) : option nat :=
  match l with
  | [] => None
  | y :: rest =>
      if String.eqb y x then Some O
      else match list_index x rest with
           | Some i => Some (S i)
           | None => None
           end
  end.

(** [l[k]]: a negative index counts from the end; [IndexError] outside
    the list. *)
Definition list_getitem (l : list string) (k : Z) : option string :=
  if 0 <=? k then nth_error l (Z.to_nat k)
  else if - Z.of_nat (length l) <=? k
       then nth_error l (Z.to_nat (Z.of_nat (length l) + k))
       else None.

(** [x in l] *)
Definition list_contains (x : string) (l : list string) : bool :=
  existsb (String.eqb x) l.

(** A [for] loop over a list. *)
Fixpoint for_each {A : Type} (l : list A) (body : A -> B unit) : B unit :=
  match l with
  | [] => ret tt
  | x :: rest => body x ;; for_each rest body
  end.

(** ** The methods of [SeekBar] *)

(** The bodies of the two loops of [_set_timer_mode]: a time label found
    in the bar, or in the box, is removed from it. *)
Definition remove_from_bar (elem : Widget) : B unit :=
  let name := get_name elem in
  if String.eqb name "elapsed-label" || String.eqb name "remaining-label"
  then ws <- get_widgets ;; set_children (remove elem (children ws))
  else ret tt.

Definition remove_from_box (elem : Widget) : B unit :=
  let name := get_name elem in
  if String.eqb name "elapsed-label" || String.eqb name "remaining-label"
  then ws <- get_widgets ;; set_box_children (remove elem (box_children ws))
  else ret tt.

(** [_set_timer_mode(self, mode)] *)
Definition _set_timer_mode (mode : string) : B unit :=
  ws <- get_widgets ;;
  for_each (find_widgets (children ws)) remove_from_bar ;;
  ws <- get_widgets ;;
  for_each (find_widgets (box_children ws)) remove_from_box ;;
  (if String.eqb mode "both" then
     ws <- get_widgets ;;
     set_box_children (pack_start w_elapsed_label (box_children ws)) ;;
     ws <- get_widgets ;;
     set_children (pack_start w_remaining_label (children ws))
   else if String.eqb mode "remaining" then
     ws <- get_widgets ;;
     set_box_children (pack_start w_remaining_label (box_children ws))
   else if String.eqb mode "elapsed" then
     ws <- get_widgets ;;
     set_box_children (pack_start w_elapsed_label (box_children ws))
   else ret tt) ;;
  set___timer_mode mode ;;
  b <- get_bar ;;
  config_set "plugins" (c_timer_mode b) (__timer_mode b).

(** [_on_timer_clicked(self, button)] *)
Definition _on_timer_clicked : B unit :=
  b <- get_bar ;;
  match list_index (__timer_mode b) (_timer_modes b) with
  | None => raise ValueError
  | Some i =>
      match list_getitem (_timer_modes b) (Z.of_nat i - 1) with
      | None => raise IndexError
      | Some mode => _set_timer_mode mode
      end
  end.

(** [_update_labels(self, player, ms=None)] *)
Definition _update_labels (ms : option Z) : B unit :=
  elapsed <- match ms with
             | Some ms => ret (ms / 1000)
             | None => position <- player_get_position ;; ret (position / 1000)
             end ;;
  length <- player_info_length ;;
  let remaining := num_sub (int elapsed) length in
  elapsed_set_time (int elapsed) ;;
  remaining_set_time remaining.

(** [_update_scale(self, player, ms=None)] *)
Definition _update_scale (ms : option Z) : B unit :=
  pval <- match ms with
          | Some ms => ret (num_truediv (int ms) (int 1000))
          | None => position <- player_get_position ;;
                    ret (num_truediv (int position) (int 1000))
          end ;;
  sval <- scale_get_value ;;
  if num_gt (num_abs (num_sub pval sval)) milli
  then scale_set_value pval
  else ret tt.

(** [_on_seek(self, player, song, ms)] *)
Definition _on_seek (ms : Z) : B unit :=
  _update_labels (Some ms) ;;
  _update_scale (Some ms).

(** [_on_button_press(self, scale, event, player)] *)
Definition _on_button_press : B unit :=
  signal_handler_block h_button_press_event ;;
  set___pressed_lmb true ;;
  signal_handler_unblock h_value_changed ;;
  signal_handler_block h_change_value ;;
  value <- scale_get_value ;;
  set___pressed_lmb_scale_value value.

(** [_on_button_release(self, scale, event, player)] *)
Definition _on_button_release : B unit :=
  signal_handler_block h_value_changed ;;
  value <- scale_get_value ;;
  seekable <- player_seekable ;;
  (if seekable : bool then
     b <- get_bar ;;
     match __pressed_lmb_scale_value b with
     | None => raise AttributeError
     | Some pressed_value =>
         if num_ne pressed_value value
         then player_seek (num_mul value (int 1000))
         else ret tt
     end
   else ret tt) ;;
  signal_handler_unblock h_change_value ;;
  set___pressed_lmb false ;;
  signal_handler_unblock h_button_press_event.

(** [_on_scale_value_changed(self, scale, player)] *)
Definition _on_scale_value_changed : B unit :=
  elapsed <- scale_get_value ;;
  length <- player_info_length ;;
  let remaining := num_sub elapsed length in
  elapsed_set_time elapsed ;;
  remaining_set_time remaining.

(** [_on_scale_value_change_request(self, scale, scroll, value, player)] *)
Definition _on_scale_value_change_request (value : num) : B unit :=
  set___pressed_lmb true ;;
  b <- get_bar ;;
  match __source_id b with
  | Some id => source_remove id
  | None => ret tt
  end ;;
  id <- timeout_add 200 value ;;
  set___source_id (Some id).

(** [__scroll_timeout(self, value, player)]; it returns [None], so the
    main loop destroys the source that fired. *)
Definition __scroll_timeout (value : num) : B unit :=
  seekable <- player_seekable ;;
  (if seekable : bool
   then player_seek (num_mul value (int 1000))
   else ret tt) ;;
  set___pressed_lmb false ;;
  set___source_id None.

(** [_on_tick(self, tracker, player)] *)
Definition _on_tick : B unit :=
  b <- get_bar ;;
  if negb (__pressed_lmb b)
  then _update_labels None ;; _update_scale None
  else ret tt.

(** [_update(self, player, *args, song_start=False)] *)
Definition _update (song_start : bool) : B unit :=
  has_info <- player_has_info ;;
  (if has_info : bool
   then length <- player_info_length ;; scale_set_range (int 0) length
   else scale_set_range (int 0) (int 1)) ;;
  seekable <- player_seekable ;;
  if seekable : bool then
    elapsed_set_disabled false ;;
    remaining_set_disabled false ;;
    set_sensitive true ;;
    if song_start
    then _update_labels (Some 0) ;; _update_scale (Some 0)
    else _update_labels None ;; _update_scale None
  else
    scale_set_value (int 0) ;;
    elapsed_set_disabled true ;;
    remaining_set_disabled true ;;
    set_sensitive false.

(** [_on_song_start(self, player, *args)] *)
Definition _on_song_start : B unit := _update true.

(** [_on_destroy(self, *args)] *)
Definition _on_destroy : B unit :=
  on_tracker SynchronizedTimeTracker.destroy.

(** [SeekBar.__init__(self, player, library)], as far as it touches what
    is modelled here: the attributes, the scale packed into the bar, the
    timer mode taken from the configuration, the [value-changed] handler
    blocked, the tracker created and the first [_update].  [module_name]
    is what [__name__] is when the plugin is loaded. *)
Definition __init__ (module_name : string) : B unit :=
  put_bar (mkBar ["both"; "elapsed"; "remaining"]
             (String.append module_name "_timer_mode")
             "both" false None None) ;;
  ws <- get_widgets ;;
  set_children (pack_start w_scale (children ws)) ;;
  b <- get_bar ;;
  found <- config_get "plugins" (c_timer_mode b) ;;
  match found with
  | None => config_set "plugins" (c_timer_mode b) "both"
  | Some mode =>
      set___timer_mode mode ;;
      b <- get_bar ;;
      if negb (list_contains (__timer_mode b) (_timer_modes b))
      then set___timer_mode "both"
      else ret tt
  end ;;
  b <- get_bar ;;
  _set_timer_mode (__timer_mode b) ;;
  signal_handler_block h_value_changed ;;
  on_tracker SynchronizedTimeTracker.__init__ ;;
  _update false.

(** ** The event loop around the bar *)

(** Modelled from the spec: the main loop dispatches the timeout source
    [id] of the bar.  [__scroll_timeout] runs with the value the source
    was armed with and, as it returns [None], the source is destroyed
    afterwards.  A source that is no longer attached never fires. *)
Definition dispatch (id : nat) : B unit :=
  e <- get_env ;;
  match scroll_sources e !! id with
  | Some src => __scroll_timeout (scroll_value src) ;; source_remove id
  | None => ret tt
  end.

(** Modelled from the spec: a signal of the scale reaches its handler
    unless the handler is blocked. *)
Definition deliver (h : ScaleHandler) (handler : B unit) : B unit :=
  ws <- get_widgets ;;
  if Nat.eqb (blocked h ws) 0 then handler else ret tt.

(** The user moves the slider: the scale shows [v]. *)
Definition show_value (v : num) : B unit :=
  ws <- get_widgets ;;
  put_widgets
    (mkWidgets (children ws) (box_children ws) (elapsed_label ws)
       (remaining_label ws) (sensitive ws) (blocked_button_press_event ws)
       (blocked_change_value ws) (blocked_value_changed ws)
       v (scale_calls ws)).

(** A burst of change requests, oldest first. *)
Definition change_requests (values : list num) : B unit :=
  for_each values _on_scale_value_change_request.

(** ** Notions used by the statements *)

Definition timer_modes : list string := ["both"; "elapsed"; "remaining"].

(** Where the labels go: what [children] and [box_children] hold once the
    time labels are taken out and those of [mode] packed. *)
Definition unlabelled (container : list Widget) : list Widget :=
  List.filter (fun w => negb (is_TimeLabel w)) container.

(** What one round of the removal loops does to a container. *)
Definition strip (elem : Widget) (container : list Widget) : list Widget :=
  if is_TimeLabel elem then remove elem container else container.

Definition packed_in_bar (mode : string) : list Widget :=
  if String.eqb mode "both" then [w_remaining_label] else [].

Definition packed_in_box (mode : string) : list Widget :=
  if String.eqb mode "both" then [w_elapsed_label]
  else if String.eqb mode "remaining" then [w_remaining_label]
  else if String.eqb mode "elapsed" then [w_elapsed_label]
  else [].

(** The world of a bar that is about to be constructed: empty containers,
    labels and scale as GTK makes them, nothing blocked, and whatever
    configuration, sources and player there are. *)
Definition blank (w : World) (e : Env) : Gui :=
  mkGui w
    (mkBar [] "" "" false None None)
    (mkWidgets [] [] (mkTimeLabel None false) (mkTimeLabel None false)
       true 0 0 0 (int 0) [])
    e.


(** The mode [__init__] settles on, given what the configuration holds
    for the option. *)
Definition chosen_mode (found : option string) : string :=
  match found with
  | Some mode => if list_contains mode timer_modes then mode else "both"
  | None => "both"
  end.

(** The sources of the bar are in order when none sits at or above the
    next free id and the one the bar holds, if any, is attached on top of
    the sources [base] of others. *)
Definition scroll_pending (base : gmap nat ScrollSource) (g : Gui) : Prop :=
  (forall k, (next_scroll_id (env g) <= k)%nat -> base !! k = None) /\
  match __source_id (bar g) with
  | None => scroll_sources (env g) = base
  | Some id =>
      (id < next_scroll_id (env g))%nat /\
      base !! id = None /\
      exists value,
        scroll_sources (env g) = <[id := mkScrollSource 200 value]> base
  end.

End WithNumbers.

Notation "x <- c1 ;; c2" := (bind c1 (fun x => c2))
  (at level 100, c1 at next level, right associativity) : bar_scope.
Notation "c1 ;; c2" := (bind c1 (fun _ => c2))
  (at level 100, right associativity) : bar_scope.

(** Exact rational arithmetic, an instance of the interface on which the
    bar can be run. *)
Definition rationals : Numbers :=
  mkNumbers Q inject_Z
    (fun a b => negb (Qeq_bool a b))
    Qmult Qminus Qdiv Qabs
    (fun a b => negb (Qle_bool a b))
    (1 # 1000)%Q.

(** A bar to run: constructed over rational numbers on an empty
    configuration, with a seekable player at position 0 that is not
    paused and plays a song of 200 seconds. *)
Definition demo_env : Env (H := rationals) :=
  mkEnv (H := rationals) ∅ ∅ 1 true (Some (inject_Z 200)) [].

Definition demo : Gui (H := rationals) :=
  exec (H := rationals) (__init__ (H := rationals) "seekbar")
    (blank (H := rationals) (boot 1 1 false 0) demo_env).

End SeekBar.

(** ** Proof automation *)

(** Unfolding of the monadic plumbing down to explicit worlds. *)
Ltac unfold_M :=
  cbv beta iota zeta delta
    [step handle exec eval bind ret get_self put_self set_source_id
     set_tick_prev_sec set_sigs get_position get_paused connect
     disconnect timeout_add source_remove emit set_position set_paused
     call call_handlers player_emit dispatch __song_started __disable
     __enable restart __seek __run disconnect_all destroy __init__ boot
     attach fire call_run playback_step pending_interval PlayerSignal_eqb
     connections handler_ids app List.filter fmap option_fmap option_map
     self glib player emitted armed offset max_delta source_id
     tick_prev_sec sigs sources next_source_id paused position handlers
     next_handler_id src_interval src_data fst snd];
  cbn [negb andb Z.eqb Pos.eqb].

Ltac has_var b := match b with context [?x] => is_var x end.

Ltac eval_closed b :=
  tryif has_var b then fail else
    (let v := eval vm_compute in b in
     lazymatch v with
     | true => change b with true
     | false => change b with false
     end).

Ltac branch_one :=
  match goal with
  | |- context [@insert _ _ _ _ ?k ?v (@empty _ _)] =>
      rewrite (insert_empty k v)
  | |- context [@lookup _ _ _ _ ?k (@empty _ _)] => rewrite (lookup_empty k)
  | |- context [@lookup _ _ _ _ ?i (@singletonM _ _ _ _ ?i ?x)] =>
      rewrite (lookup_singleton_eq i x)
  | |- context [@lookup _ _ _ _ ?j (@singletonM _ _ _ _ ?i ?x)] =>
      destruct (decide (i = j));
      [ subst; rewrite lookup_singleton_eq
      | rewrite lookup_singleton_ne by assumption ]
  | |- context [Nat.eqb ?a ?b] =>
      destruct (Nat.eqb_spec a b); try (exfalso; lia)
  | |- context [if ?b then _ else _] =>
      match b with
      | context [if _ then _ else _] => fail 1
      | _ => first [eval_closed b | destruct b eqn:?]
      end
  | |- context [match @lookup _ _ _ _ ?k ?m with _ => _ end] =>
      destruct (@lookup _ _ _ _ k m) eqn:?
  end.

Ltac run_M := unfold_M; repeat (branch_one; unfold_M).

(** Arming a fresh source and dropping the only older one leaves exactly
    the new one. *)
Lemma rearm_singleton (id n : nat) (s s' : Source) :
  (id < n)%nat ->
  delete id (<[n := s']> ({[id := s]} : gmap nat Source)) = {[n := s']}.
Proof.
  intros Hlt. rewrite delete_insert_ne by lia.
  rewrite delete_singleton_eq. apply insert_empty.
Qed.

Ltac map_simpl :=
  repeat first
    [ rewrite insert_empty
    | rewrite delete_singleton_eq
    | rewrite delete_empty
    | rewrite lookup_empty
    | rewrite lookup_singleton_eq
    | rewrite rearm_singleton by lia ].

Lemma intervals_ok_cons pos log :
  intervals_ok log -> intervals_ok ((1000 + 10 - pos mod 1000, pos) :: log).
Proof.
  intros H. apply List.Forall_cons; [cbn [fst snd]; lia | exact H].
Qed.

Ltac solve_shape :=
  map_simpl;
  first
    [ apply (shape_armed _ _ _ _ _ _ _ _ _);
      [ lia | first [assumption | apply intervals_ok_cons; assumption
                     | apply List.Forall_nil
                     | apply intervals_ok_cons; apply List.Forall_nil ] ]
    | apply (shape_paused _ _ _ _ _ _ _);
      first [assumption | apply List.Forall_nil]
    | apply (shape_detached _ _ _ _ _ _ _ _);
      first [assumption | apply List.Forall_nil] ].

(** ** Scenarios, evaluated *)

Example scenario_attach :
  pending_interval (attach 1 1 false 0) = Some 1010.
Proof. vm_compute. reflexivity. Qed.

Example scenario_first_fire :
  let w := step (ev_timeout 1 1005) (attach 1 1 false 0) in
  emitted w = [(tick, 1005)] /\ tick_prev_sec (self w) = 1 /\
  pending_interval w = Some 1010.
Proof. vm_compute. repeat split; reflexivity. Qed.

(** ** The shape is an invariant *)

Lemma shape_attach n0 h0 paused0 pos0 : shape (attach n0 h0 paused0 pos0).
Proof.
  destruct paused0; unfold_M; solve_shape.
Qed.

Lemma shape_step w e : shape w -> shape (step e w).
Proof.
  intros H; destruct H; destruct e; run_M; solve_shape.
Qed.

Theorem reachable_shape w : reachable w -> shape w.
Proof.
  induction 1 as [n0 h0 paused0 pos0 | w e _ IH].
  - apply shape_attach.
  - apply shape_step, IH.
Qed.

(** ** The timer callback *)

Lemma cons_neq {A : Type} (x : A) (l : list A) : x :: l <> l.
Proof.
  intros H. apply (f_equal (@length A)) in H. cbn in H. lia.
Qed.

Lemma guard_true (s p : Z) :
  negb (s =? p) && negb (s =? 0) = true -> s <> p /\ s <> 0.
Proof.
  destruct (Z.eqb_spec s p), (Z.eqb_spec s 0); cbn; intros; try discriminate.
  split; assumption.
Qed.

Lemma guard_false (s p : Z) :
  negb (s =? p) && negb (s =? 0) = false -> ~ (s <> p /\ s <> 0).
Proof.
  destruct (Z.eqb_spec s p), (Z.eqb_spec s 0); cbn; intros; try discriminate;
    tauto.
Qed.

Ltac guards :=
  repeat match goal with
         | H : negb (_ =? _) && negb (_ =? 0) = true |- _ =>
             apply guard_true in H
         | H : negb (_ =? _) && negb (_ =? 0) = false |- _ =>
             apply guard_false in H
         | H : (_ >? _) = true |- _ => apply Z.gtb_gt in H
         | H : (_ >? _) = false |- _ =>
             rewrite Z.gtb_ltb in H; apply Z.ltb_ge in H
         end.

(** C1.  Whenever the timer callback [__run] fires, with the second
    computed from the one position it reads, a tick is emitted exactly
    when that second differs from the last ticked second and is not zero;
    the last ticked second then becomes that second, and is left alone
    otherwise.  In particular no tick is emitted while the position is
    below 1000 ms (positions are playback positions, hence not
    negative). *)
Theorem run_ticks_on_new_nonzero_second (w : World) (last_interval : Z) :
  let current_second := position (player w) / 1000 in
  let w' := exec (__run last_interval) w in
  (ticked w w' <->
     current_second <> tick_prev_sec (self w) /\ current_second <> 0) /\
  (silent w w' <->
     ~ (current_second <> tick_prev_sec (self w) /\ current_second <> 0)) /\
  (ticked w w' -> tick_prev_sec (self w') = current_second) /\
  (silent w w' -> tick_prev_sec (self w') = tick_prev_sec (self w)) /\
  (0 <= position (player w) < 1000 -> silent w w').
Proof.
  destruct w as [[o md sid prev sg] [srcs nid] [pz pos hs nh] em ar].
  unfold ticked, silent. run_M.
  all: guards; repeat split; intros; try tauto; try congruence;
    try (exfalso; eapply cons_neq; eassumption);
    try (exfalso; eapply cons_neq; symmetry; eassumption).
  all: assert (pos / 1000 = 0) by (apply Z.div_small; lia); tauto.
Qed.

Lemma run_ticks_on_new_nonzero_second_witness :
  let w := attach 1 1 false 500 in
  0 <= position (player w) < 1000 /\ silent w (exec (__run 1010) w).
Proof.
  intros w.
  assert (H : 0 <= position (player w) < 1000) by (vm_compute; split; [discriminate | reflexivity]).
  split; [exact H |].
  destruct (run_ticks_on_new_nonzero_second w 1010) as (_ & _ & _ & _ & Hlow).
  exact (Hlow H).
Defined.

(** C2.  When the source of a reachable world fires, with the ideal
    interval 1000 + 10 - (position mod 1000): if the interval the source
    was scheduled with differs from the ideal one by more than 20, the
    tracker arms a new source with the ideal interval, recorded as the
    scheduled interval of that source, and the old source is gone;
    otherwise [__run] returns true and the main loop is left untouched,
    so the same source repeats with the interval it had.  Exactly one of
    the two happens. *)
Theorem firing_rearms_or_repeats (w : World) (id : nat) (src : Source) :
  reachable w ->
  sources (glib w) !! id = Some src ->
  let ideal := 1000 + 10 - position (player w) mod 1000 in
  let scheduled_interval := src_data src in
  let w' := exec (dispatch id) w in
  scheduled_interval = src_interval src /\
  (Z.abs (scheduled_interval - ideal) > 20 ->
     eval (__run scheduled_interval) w = false /\
     rearmed id ideal w w' /\ ~ repeated w w') /\
  (Z.abs (scheduled_interval - ideal) <= 20 ->
     eval (__run scheduled_interval) w = true /\
     repeated w w' /\ ~ rearmed id ideal w w' /\
     sources (glib w') !! id = Some src).
Proof.
  intros Hr Hsrc. apply reachable_shape in Hr.
  destruct Hr; cbn [sources glib] in Hsrc.
  2, 3: rewrite lookup_empty in Hsrc; discriminate.
  apply lookup_singleton_Some in Hsrc as [-> <-].
  unfold rearmed, repeated. run_M; guards; map_simpl.
  all: cbn [src_data src_interval].
  all: repeat split; intros; try reflexivity; try lia.
  all: try (apply lookup_singleton_ne; lia).
  all: intros (Hg & Hs & _); first [discriminate Hg | injection Hs; lia].
Qed.

Lemma firing_rearms_or_repeats_witness :
  let w := attach 1 1 false 0 in
  repeated w (exec (dispatch 1) w).
Proof.
  intros w.
  destruct (firing_rearms_or_repeats w 1 (mkSource 1010 1010))
    as (_ & _ & Hsteady).
  - apply reach_attach.
  - vm_compute. reflexivity.
  - apply Hsteady. vm_compute. discriminate.
Defined.

(** ** Runs of firings *)

Lemma NoDup_snoc {A : Type} (l : list A) (x : A) :
  List.NoDup l -> ~ In x l -> List.NoDup (l ++ [x]).
Proof.
  induction l as [| y l IH]; cbn; intros Hnd Hx.
  - constructor; [intros [] | constructor].
  - inversion Hnd as [| ? ? Hy Hl]; subst.
    constructor.
    + intros Hin. apply in_app_or in Hin as [Hin | [-> | []]]; tauto.
    + apply IH; tauto.
Qed.

Lemma run_cons (e : Event) (es : list Event) (w : World) :
  run (e :: es) w = run es (step e w).
Proof. reflexivity. Qed.

Lemma run_timeouts (fs : list (nat * Z)) :
  forall w : World,
    run (timeouts fs) w =
    fold_left (fun w f => step (ev_timeout (fst f) (snd f)) w) fs w.
Proof.
  induction fs as [| f fs IH]; intros w; [reflexivity |].
  cbn [timeouts map]. rewrite run_cons. apply IH.
Qed.

Section Firings.

(** A firing of kind [A] reads the position [pos_of a] and acts on the
    world by [act a]; all that is needed of it is what [__run] does to
    the tick log and to the last ticked second. *)
Context {A : Type} (pos_of : A -> Z) (act : A -> World -> World).

Hypothesis act_effect :
  forall (a : A) (w : World),
    (emitted (act a w) = (tick, pos_of a) :: emitted w /\
     tick_prev_sec (self (act a w)) = pos_of a / 1000 /\
     pos_of a / 1000 <> tick_prev_sec (self w)) \/
    (emitted (act a w) = emitted w /\
     tick_prev_sec (self (act a w)) = tick_prev_sec (self w)).

(** The ticks of a run of firings with non-decreasing positions: their
    seconds are pairwise distinct, each belongs to a position of the
    run, and none is the last ticked second the run started from when
    that second is not above the seconds of the run. *)
Lemma ticks_of_firings (fs : list A) :
  forall w : World,
    StronglySorted Z.le (map pos_of fs) ->
    exists new,
      emitted (fold_left (fun w a => act a w) fs w) = new ++ emitted w /\
      List.NoDup (seconds new) /\
      List.Forall
        (fun t => fst t = tick /\ In (snd t) (map pos_of fs)) new /\
      (List.Forall (fun p => tick_prev_sec (self w) <= p / 1000)
                   (map pos_of fs) ->
       ~ In (tick_prev_sec (self w)) (seconds new)).
Proof.
  induction fs as [| a fs IH]; intros w Hsorted.
  - exists []. cbn. repeat split; auto; constructor.
  - cbn [map fold_left] in *.
    apply StronglySorted_inv in Hsorted as [Hrest Hp].
    destruct (IH (act a w) Hrest) as (new & Hnew & Hnodup & Hall & Hfresh).
    rewrite Hnew.
    assert (Hsecs :
      List.Forall (fun q => pos_of a / 1000 <= q / 1000) (map pos_of fs)).
    { eapply List.Forall_impl; [| exact Hp].
      intros q Hq. cbn in Hq. apply Z.div_le_mono; lia. }
    assert (Hall' :
      List.Forall
        (fun t => fst t = tick /\ In (snd t) (pos_of a :: map pos_of fs))
        new).
    { eapply List.Forall_impl; [| exact Hall].
      intros t [Ht Hin]. split; [exact Ht | right; exact Hin]. }
    assert (Hge : forall s, In s (seconds new) -> pos_of a / 1000 <= s).
    { intros s Hs. unfold seconds in Hs.
      apply in_map_iff in Hs as (t & <- & Ht).
      rewrite List.Forall_forall in Hall. destruct (Hall t Ht) as [_ Hin].
      rewrite List.Forall_forall in Hsecs. apply Hsecs, Hin. }
    destruct (act_effect a w) as [(Hem & Hprev & Hne) | (Hem & Hprev)];
      rewrite Hem.
    + rewrite Hprev in Hfresh. specialize (Hfresh Hsecs).
      exists (new ++ [(tick, pos_of a)]). rewrite <- app_assoc. cbn [app].
      split; [reflexivity |]. unfold seconds in *.
      rewrite map_app. cbn [map snd].
      repeat split.
      * apply NoDup_snoc; assumption.
      * apply List.Forall_app. split; [exact Hall' |].
        constructor; [| constructor]. cbn. auto.
      * intros Hlow Hin. apply in_app_or in Hin as [Hin | [Heq | []]].
        -- apply List.Forall_inv in Hlow.
           pose proof (Hge _ Hin) as Hle.
           apply Hfresh.
           replace (pos_of a / 1000) with (tick_prev_sec (self w)) by lia.
           exact Hin.
        -- congruence.
    + rewrite Hprev in Hfresh.
      exists new. repeat split; auto.
      intros Hlow. apply Hfresh. apply List.Forall_inv_tail in Hlow.
      exact Hlow.
Qed.

End Firings.

(** What one call of the callback, and one timer event, do to the tick
    log and to the last ticked second, in any world. *)
Lemma call_run_effect (f : Z * Z) (w : World) :
  (emitted (call_run (fst f) (snd f) w) = (tick, snd f) :: emitted w /\
   tick_prev_sec (self (call_run (fst f) (snd f) w)) = snd f / 1000 /\
   snd f / 1000 <> tick_prev_sec (self w)) \/
  (emitted (call_run (fst f) (snd f) w) = emitted w /\
   tick_prev_sec (self (call_run (fst f) (snd f) w)) = tick_prev_sec (self w)).
Proof.
  destruct f as [li p].
  destruct w as [[o md sid prev sg] [srcs nid] [pz pos hs nh] em ar].
  run_M; guards; try tauto; left; repeat split; tauto.
Qed.

Lemma timeout_effect (f : nat * Z) (w : World) :
  (emitted (step (ev_timeout (fst f) (snd f)) w) = (tick, snd f) :: emitted w /\
   tick_prev_sec (self (step (ev_timeout (fst f) (snd f)) w)) = snd f / 1000 /\
   snd f / 1000 <> tick_prev_sec (self w)) \/
  (emitted (step (ev_timeout (fst f) (snd f)) w) = emitted w /\
   tick_prev_sec (self (step (ev_timeout (fst f) (snd f)) w)) =
   tick_prev_sec (self w)).
Proof.
  destruct f as [id p].
  destruct w as [[o md sid prev sg] [srcs nid] [pz pos hs nh] em ar].
  run_M; guards; try tauto; left; repeat split; tauto.
Qed.

(** C3.  In every run of wake-up firings whose position reads never
    decrease (nothing but firings happens, so no seek and no track
    change), the ticks emitted during the run belong to pairwise distinct
    seconds: at most one tick per value of floor(position / 1000).  This
    holds for any run of calls of the callback, whatever interval each is
    called with, and for any run of timer events of the main loop. *)
Theorem no_duplicate_ticks (w : World) :
  (forall fs : list (Z * Z),
     Sorted Z.le (map snd fs) ->
     exists new,
       emitted (calls fs w) = new ++ emitted w /\
       List.NoDup (seconds new) /\
       List.Forall (fun t => fst t = tick /\ In (snd t) (map snd fs)) new) /\
  (forall fs : list (nat * Z),
     Sorted Z.le (map snd fs) ->
     exists new,
       emitted (run (timeouts fs) w) = new ++ emitted w /\
       List.NoDup (seconds new) /\
       List.Forall (fun t => fst t = tick /\ In (snd t) (map snd fs)) new).
Proof.
  split; intros fs Hsorted;
    (apply Sorted_StronglySorted in Hsorted;
     [| intros x y z; apply Z.le_trans]).
  - destruct (ticks_of_firings snd (fun f => call_run (fst f) (snd f))
                call_run_effect fs w Hsorted) as (new & H1 & H2 & H3 & _).
    exists new. auto.
  - rewrite run_timeouts.
    destruct (ticks_of_firings snd (fun f => step (ev_timeout (fst f) (snd f)))
                timeout_effect fs w Hsorted) as (new & H1 & H2 & H3 & _).
    exists new. auto.
Qed.

Lemma no_duplicate_ticks_witness :
  let w := attach 1 1 false 0 in
  let fs := [(1%nat, 1005); (1%nat, 1500); (2%nat, 2010)] in
  emitted (run (timeouts fs) w) = [(tick, 2010); (tick, 1005)] /\
  exists new,
    emitted (run (timeouts fs) w) = new ++ emitted w /\
    List.NoDup (seconds new) /\
    List.Forall (fun t => fst t = tick /\ In (snd t) (map snd fs)) new.
Proof.
  intros w fs. split; [vm_compute; reflexivity |].
  apply (proj2 (no_duplicate_ticks w) fs).
  cbn [map snd fs]. repeat constructor; lia.
Defined.

(** ** Seek and track change *)

(** C4.  [__seek] sets the last ticked second to floor(seek / 1000);
    after a seek to 5000 a firing that reads 5010 ms emits no tick and a
    later firing that reads 6050 ms emits one; and when the player is not
    paused at seek time, every source that was attached is removed and a
    new one is armed with the interval computed from a fresh position
    read. *)
Theorem seek_resets_baseline (w : World) (seek : Z) :
  let w' := exec (__seek seek) w in
  let fresh := 1000 + 10 - position (player w) mod 1000 in
  tick_prev_sec (self w') = seek / 1000 /\
  (seek = 5000 ->
     forall li1 li2 : Z,
       let w1 := call_run li1 5010 w' in
       let w2 := call_run li2 6050 w1 in
       silent w' w1 /\ ticked w1 w2) /\
  (reachable w ->
   paused (player w) = false ->
     (forall id, is_Some (sources (glib w) !! id) ->
                 sources (glib w') !! id = None) /\
     sources (glib w') = {[ next_source_id (glib w) := mkSource fresh fresh ]} /\
     source_id (self w') = Some (next_source_id (glib w)) /\
     armed w' = (fresh, position (player w)) :: armed w).
Proof.
  intros w' fresh. subst w' fresh.
  split; [| split].
  - destruct w as [[o md [id|] prev sg] [srcs nid] [pz pos hs nh] em ar];
      run_M; reflexivity.
  - intros -> li1 li2. unfold silent, ticked.
    destruct w as [[o md [id|] prev sg] [srcs nid] [pz pos hs nh] em ar];
      run_M; split; reflexivity.
  - intros Hr Hp. apply reachable_shape in Hr.
    destruct Hr; cbn [paused player] in Hp; try discriminate; subst.
    + run_M; map_simpl. repeat split; try reflexivity.
      intros id' [src Hsrc]. apply lookup_singleton_Some in Hsrc as [<- _].
      apply lookup_singleton_ne. lia.
    + run_M; map_simpl. repeat split; try reflexivity.
      intros id' [src Hsrc]. rewrite lookup_empty in Hsrc. discriminate.
Qed.

Lemma seek_resets_baseline_witness :
  let w := attach 1 1 false 4000 in
  let w' := exec (__seek 5000) w in
  reachable w /\
  tick_prev_sec (self w') = 5 /\
  sources (glib w') = {[ 2%nat := mkSource 1010 1010 ]} /\
  silent w' (call_run 1010 5010 w') /\
  ticked (call_run 1010 5010 w') (call_run 1000 6050 (call_run 1010 5010 w')).
Proof.
  intros w w'.
  destruct (seek_resets_baseline w 5000) as (Hsec & Hscenario & Harm).
  split; [apply reach_attach |].
  split; [exact Hsec |].
  split; [exact (proj1 (proj2 (Harm (reach_attach 1 1 false 4000) eq_refl))) |].
  exact (Hscenario eq_refl 1010 1000).
Defined.

(** ** The end-to-end scenario *)

(** The scenario does not end with a wake-up of 1005 ms: with source and
    handler ids starting at 1, the wake-up pending after the firing is the
    old one of 1010 ms. *)
Lemma end_to_end_recomputed_counterexample : ~ end_to_end_recomputed 1 1.
Proof.
  intros (_ & _ & _ & Hnext). vm_compute in Hnext. discriminate Hnext.
Qed.

(** C5, as the code has it.  Attached at position 0 to a player that is
    not paused, the tracker arms its first wake-up with 1010 ms; when it
    fires at position 1005 ms a tick is emitted and the last ticked second
    becomes 1; the freshly computed interval 1000 + 10 - 5 = 1005 ms is
    within 20 ms of the scheduled 1010 ms, so nothing is armed and the
    wake-up repeats with 1010 ms. *)
Theorem end_to_end_repeats (n0 h0 : nat) :
  let w0 := attach n0 h0 false 0 in
  let w1 := fire 1005 w0 in
  pending_interval w0 = Some 1010 /\
  ticked w0 w1 /\
  tick_prev_sec (self w1) = 1 /\
  1000 + 10 - position (player w1) mod 1000 = 1005 /\
  repeated w0 w1 /\
  pending_interval w1 = Some 1010.
Proof.
  unfold pending_interval, ticked, repeated. run_M; map_simpl.
  all: repeat split; reflexivity.
Qed.

(** ** One pending wake-up *)

Lemma shape_pending (w : World) :
  shape w ->
  (is_Some (source_id (self w)) <-> attached w /\ paused (player w) = false) /\
  (forall id, is_Some (sources (glib w) !! id) <-> source_id (self w) = Some id) /\
  (size (sources (glib w)) <= 1)%nat.
Proof.
  intros H; destruct H; unfold attached; unfold_M.
  - repeat split; eauto; try discriminate.
    + intros [src Hsrc]. apply lookup_singleton_Some in Hsrc as [-> _].
      reflexivity.
    + intros [= ->]. rewrite lookup_singleton_eq. eauto.
    + rewrite map_size_singleton. lia.
  - repeat split; try discriminate.
    + match goal with Hs : is_Some None |- _ => destruct Hs; discriminate end.
    + intros [_ ?]; discriminate.
    + intros [src Hsrc]. rewrite lookup_empty in Hsrc. discriminate.
    + rewrite map_size_empty. lia.
  - repeat split; try discriminate.
    + match goal with Hs : is_Some None |- _ => destruct Hs; discriminate end.
    + match goal with Hs : is_Some None |- _ => destruct Hs; discriminate end.
    + intros [? _]; congruence.
    + intros [src Hsrc]. rewrite lookup_empty in Hsrc. discriminate.
    + rewrite map_size_empty. lia.
Qed.

(** C6.  In every reachable world the tracker holds a source id exactly
    when it is attached and the player is not paused; the sources
    attached to the main loop are exactly the one the tracker holds, so
    at most one is outstanding; a source the tracker no longer holds after
    an event is no longer attached after it; and [__disable], with which
    [restart] begins, leaves no source behind before [__enable] arms the
    next. *)
Theorem one_pending_wakeup (w : World) :
  reachable w ->
  (is_Some (source_id (self w)) <-> attached w /\ paused (player w) = false) /\
  (forall id, is_Some (sources (glib w) !! id) <-> source_id (self w) = Some id) /\
  (size (sources (glib w)) <= 1)%nat /\
  (forall e id,
     is_Some (sources (glib w) !! id) ->
     source_id (self (step e w)) <> Some id ->
     sources (glib (step e w)) !! id = None) /\
  sources (glib (exec __disable w)) = ∅.
Proof.
  intros Hr.
  destruct (shape_pending w (reachable_shape w Hr)) as (Harmed & Honly & Hsize).
  split; [exact Harmed |]. split; [exact Honly |]. split; [exact Hsize |].
  split.
  - intros e id _ Hgone.
    destruct (shape_pending _ (reachable_shape _ (reach_step w e Hr)))
      as (_ & Honly' & _).
    destruct (sources (glib (step e w)) !! id) eqn:Hlook; [| reflexivity].
    exfalso. apply Hgone, Honly'. eauto.
  - apply reachable_shape in Hr. destruct Hr; run_M; map_simpl; reflexivity.
Qed.

Lemma one_pending_wakeup_witness :
  let w := step (ev_timeout 1 1500) (attach 1 1 false 0) in
  reachable w /\
  source_id (self w) = Some 2%nat /\
  (size (sources (glib w)) <= 1)%nat.
Proof.
  intros w.
  assert (Hr : reachable w) by (apply reach_step, reach_attach).
  destruct (one_pending_wakeup w Hr) as (_ & _ & Hsize & _).
  split; [exact Hr |]. split; [vm_compute; reflexivity | exact Hsize].
Defined.

(** ** Pause, resume and detach *)

Lemma dormant_step (w : World) (e : Event) :
  dormant w ->
  is_unpaused e = false ->
  dormant (step e w) /\ silent w (step e w).
Proof.
  intros (Hs & Hnone & Hidle) He. unfold dormant, silent.
  destruct Hs; cbn [source_id self] in Hnone; try discriminate;
    destruct e; try discriminate He.
  all: run_M; map_simpl.
  all: repeat split; try reflexivity; try solve_shape; auto.
  all: destruct Hidle as [Hidle | Hidle]; cbn in Hidle; try discriminate;
    subst; run_M; map_simpl.
  all: repeat split; try reflexivity; try solve_shape; auto.
Qed.

Lemma dormant_run (es : list Event) :
  forall w : World,
    dormant w ->
    forallb (fun e => negb (is_unpaused e)) es = true ->
    silent w (run es w).
Proof.
  induction es as [| e es IH]; intros w Hd Hes.
  - reflexivity.
  - cbn [forallb] in Hes. apply andb_true_iff in Hes as [He Hes].
    apply negb_true_iff in He.
    destruct (dormant_step w e Hd He) as [Hd' Hsilent].
    rewrite run_cons. unfold silent in *.
    rewrite (IH _ Hd' Hes). exact Hsilent.
Qed.

Lemma dead_step (w : World) (e : Event) :
  dead w -> dead (step e w) /\ silent w (step e w).
Proof.
  intros (Hs & Hh). unfold dead, silent.
  destruct Hs; cbn [handlers player] in Hh; try discriminate.
  destruct e; run_M; map_simpl.
  all: repeat split; try reflexivity; solve_shape.
Qed.

Lemma dead_run (es : list Event) :
  forall w : World, dead w -> silent w (run es w).
Proof.
  induction es as [| e es IH]; intros w Hd.
  - reflexivity.
  - destruct (dead_step w e Hd) as [Hd' Hsilent].
    rewrite run_cons. unfold silent in *.
    rewrite (IH _ Hd'). exact Hsilent.
Qed.

(** C7.  Handling the pause event cancels the pending wake-up and emits
    nothing, and whatever happens afterwards short of the resume event
    (timer events at any position, seeks, track changes, detaching)
    emits no tick.  [__enable], the handler of the resume event, arms a
    new source with the interval computed from the position it reads when
    the tracker holds none, and changes nothing when it holds one. *)
Theorem pause_suppresses_ticks (w : World) (es : list Event) :
  reachable w ->
  forallb (fun e => negb (is_unpaused e)) es = true ->
  let w1 := step ev_paused w in
  source_id (self w1) = None /\
  sources (glib w1) = ∅ /\
  silent w w1 /\
  silent w1 (run es w1) /\
  (forall v : World,
     let v' := exec __enable v in
     let ideal := 1000 + offset (self v) - position (player v) mod 1000 in
     (source_id (self v) = None ->
        source_id (self v') = Some (next_source_id (glib v)) /\
        sources (glib v') =
          <[next_source_id (glib v) := mkSource ideal ideal]> (sources (glib v)) /\
        armed v' = (ideal, position (player v)) :: armed v) /\
     (is_Some (source_id (self v)) -> v' = v)).
Proof.
  intros Hr Hes w1.
  assert (Hd : dormant w1 /\ source_id (self w1) = None /\
               sources (glib w1) = ∅ /\ silent w w1).
  { subst w1. apply reachable_shape in Hr. unfold dormant, silent.
    destruct Hr; run_M; map_simpl.
    all: repeat split; try reflexivity; try solve_shape; auto. }
  destruct Hd as (Hd & Hnone & Hempty & Hsilent).
  split; [exact Hnone |]. split; [exact Hempty |]. split; [exact Hsilent |].
  split; [apply dormant_run; assumption |].
  intros v.
  destruct v as [[o md sid prev sg] [srcs nid] [pz pos hs nh] em ar].
  split.
  - cbn [source_id self]. intros ->. run_M. repeat split; reflexivity.
  - cbn [source_id self]. intros [id ->]. run_M. reflexivity.
Qed.

Lemma pause_suppresses_ticks_witness :
  let w := attach 1 1 false 0 in
  let es := [ev_timeout 1 1005; ev_seek 7000 7000; ev_song_started;
             ev_timeout 1 9000; ev_timeout 2 9000] in
  reachable w /\
  silent (step ev_paused w) (run es (step ev_paused w)).
Proof.
  intros w es.
  destruct (pause_suppresses_ticks w es (reach_attach 1 1 false 0) eq_refl)
    as (_ & _ & _ & Hsilent & _).
  split; [apply reach_attach | exact Hsilent].
Defined.

(** C8.  [__song_started] sets the last ticked second to 0 when it is 1
    and leaves it alone otherwise, touching nothing else; after the reset
    a firing within second 1 of the new track emits a tick. *)
Theorem song_started_resets_second_one (w : World) :
  let w' := exec __song_started w in
  (tick_prev_sec (self w) = 1 -> tick_prev_sec (self w') = 0) /\
  (tick_prev_sec (self w) <> 1 -> w' = w) /\
  source_id (self w') = source_id (self w) /\
  glib w' = glib w /\ player w' = player w /\
  emitted w' = emitted w /\ armed w' = armed w /\
  (tick_prev_sec (self w) = 1 ->
   forall pos li : Z,
     1000 <= pos < 2000 ->
     ticked w' (call_run li pos w')).
Proof.
  destruct w as [[o md sid prev sg] [srcs nid] [pz pos hs nh] em ar].
  cbn [tick_prev_sec self]. unfold ticked.
  repeat split; try (intros Hp); try (intros pos' li Hpos).
  all: run_M; try reflexivity.
  all: repeat match goal with
         | H : (_ =? _) = true |- _ => apply Z.eqb_eq in H
         | H : (_ =? _) = false |- _ => apply Z.eqb_neq in H
         end; guards; try congruence.
  all: assert (pos' / 1000 = 1)
    by (symmetry; apply (Z.div_unique pos' 1000 1 (pos' - 1000)); lia).
  all: exfalso; match goal with Hg : ~ _ |- _ => apply Hg end; lia.
Qed.

Lemma song_started_resets_second_one_witness :
  let w := step (ev_timeout 1 1005) (attach 1 1 false 0) in
  tick_prev_sec (self w) = 1 /\
  tick_prev_sec (self (exec __song_started w)) = 0 /\
  ticked (exec __song_started w)
         (call_run 1010 1020 (exec __song_started w)).
Proof.
  intros w.
  assert (Hone : tick_prev_sec (self w) = 1) by (vm_compute; reflexivity).
  destruct (song_started_resets_second_one w)
    as (Hreset & _ & _ & _ & _ & _ & _ & Hnext).
  split; [exact Hone |]. split; [exact (Hreset Hone) |].
  apply (Hnext Hone 1020 1010). lia.
Defined.

(** C9.  [destroy] in a reachable world removes the pending source if
    there is one, disconnects the four handlers and emits nothing, and no
    later event makes the tracker emit; in a world where the tracker was
    never armed it does the same, and a second [destroy] changes
    nothing. *)
Theorem destroy_silences (w : World) :
  reachable w ->
  let w' := exec destroy w in
  source_id (self w') = None /\
  sources (glib w') = ∅ /\
  handlers (player w') = [] /\
  silent w w' /\
  (forall es : list Event, silent w' (run es w')) /\
  exec destroy w' = w'.
Proof.
  intros Hr w'.
  assert (Hd : dead w' /\ source_id (self w') = None /\
               sources (glib w') = ∅ /\ silent w w' /\ exec destroy w' = w').
  { subst w'. apply reachable_shape in Hr. unfold dead, silent.
    destruct Hr; run_M; map_simpl.
    all: repeat split; try reflexivity; solve_shape. }
  destruct Hd as ((Hs & Hh) & Hnone & Hempty & Hsilent & Hagain).
  repeat split; try assumption.
  intros es. apply dead_run. split; assumption.
Qed.

Lemma destroy_silences_witness :
  let never_armed := attach 1 1 true 0 in
  let w' := exec destroy never_armed in
  reachable never_armed /\
  source_id (self never_armed) = None /\
  handlers (player w') = [] /\
  exec destroy w' = w' /\
  silent w' (run [ev_unpaused 500; ev_timeout 1 1005; ev_seek 3000 3000] w').
Proof.
  intros never_armed w'.
  destruct (destroy_silences never_armed (reach_attach 1 1 true 0))
    as (_ & _ & Hh & _ & Hquiet & Hagain).
  split; [apply reach_attach |]. split; [reflexivity |].
  split; [exact Hh |]. split; [exact Hagain | apply Hquiet].
Defined.

(** ** The intervals handed to the timer *)

Lemma shape_intervals (w : World) : shape w -> intervals_ok (armed w).
Proof. intros H; destruct H; assumption. Qed.

(** C10.  Every interval handed to [timeout_add] up to a reachable world,
    by [__enable] or by the re-arming branch of [__run], is
    1010 - (position mod 1000) for the position at that call, and lies
    between 11 and 1010, so it is positive. *)
Theorem armed_intervals_in_range (w : World) :
  reachable w ->
  Forall (fun a => fst a = 1010 - snd a mod 1000 /\
                   11 <= fst a <= 1010 /\ 0 < fst a)
         (armed w).
Proof.
  intros Hr. apply reachable_shape, shape_intervals in Hr.
  eapply List.Forall_impl; [| exact Hr].
  intros [interval pos] Heq. cbn [fst snd] in *.
  pose proof (Z.mod_pos_bound pos 1000 ltac:(lia)). lia.
Qed.

Lemma armed_intervals_in_range_witness :
  let w := run [ev_timeout 1 1500; ev_seek 7777 7777] (attach 1 1 false 0) in
  reachable w /\
  armed w = [(233, 7777); (510, 1500); (1010, 0)] /\
  Forall (fun a => fst a = 1010 - snd a mod 1000 /\
                   11 <= fst a <= 1010 /\ 0 < fst a)
         (armed w).
Proof.
  intros w.
  assert (Hr : reachable w) by (do 2 apply reach_step; apply reach_attach).
  split; [exact Hr |]. split; [vm_compute; reflexivity |].
  exact (armed_intervals_in_range w Hr).
Defined.

(** ** Playback in step with the timer *)

(** Where the next firing lands when the wake-up is within the threshold
    of the ideal interval: 0 to 30 ms into the next second, or up to 10 ms
    before it. *)
Lemma next_firing (pos i : Z) :
  0 <= pos ->
  Z.abs (i - (1010 - pos mod 1000)) <= 20 ->
  ((pos + i) / 1000 = pos / 1000 + 1 /\
   (pos + i) mod 1000 = pos mod 1000 + i - 1000 /\
   0 <= (pos + i) mod 1000 <= 30) \/
  ((pos + i) / 1000 = pos / 1000 /\
   (pos + i) mod 1000 = pos mod 1000 + i /\
   990 <= (pos + i) mod 1000 <= 999).
Proof.
  intros Hpos Hnear. Z.div_mod_to_equations. lia.
Qed.

Lemma counts_down_tick (s s0 p : Z) (em : list (TrackerSignal * Z)) :
  p / 1000 = s + 1 ->
  counts_down s s0 (seconds em) ->
  counts_down (p / 1000) s0 (seconds ((tick, p) :: em)).
Proof.
  intros Hp Hcount. unfold seconds. cbn [map snd]. rewrite Hp.
  apply counts_down_cons. exact Hcount.
Qed.

Lemma in_step_playback_step (s0 : Z) (w : World) :
  in_step s0 w -> in_step s0 (playback_step w).
Proof.
  destruct w as [[o md sid prev sg] [srcs nid] [pz pos hs nh] em ar].
  intros (id & i & Hsid & Hsrc & Hfresh & Ho & Hmd & Hs0 & Hpos & Hnear &
          Hphase & Hprev & Hcount & Hlate).
  cbn [self glib player emitted armed offset max_delta source_id
       tick_prev_sec sigs sources next_source_id paused position handlers
       next_handler_id] in *.
  subst sid srcs o md.
  pose proof (next_firing pos i Hpos Hnear) as Hnext.
  assert (Hsec : 0 <= pos / 1000) by (apply Z.div_pos; lia).
  assert (Hd : 0 <= pos mod 1000 < 1000) by (apply Z.mod_pos_bound; lia).
  unfold in_step. run_M; guards; map_simpl.
  all: eexists _, _.
  all: split; [reflexivity |]; split; [reflexivity |].
  all: split; [lia |]; split; [reflexivity |]; split; [reflexivity |].
  all: split; [exact Hs0 |].
  all: destruct Hnext as [(Hdiv & Hmod & Hr) | (Hdiv & Hmod & Hr)];
    try (exfalso; lia).
  all: split; [lia |]; split; [lia |]; split; [lia |]; split; [lia |].
  all: first
    [ split;
      [ apply (counts_down_tick (pos / 1000)); assumption
      | apply List.Forall_cons; [cbn; lia | exact Hlate] ]
    | split; [rewrite Hdiv; exact Hcount | exact Hlate] ].
Qed.

Lemma in_step_attach (n0 h0 : nat) (p0 : Z) :
  0 <= p0 -> in_step (p0 / 1000) (attach n0 h0 false p0).
Proof.
  intros Hp0.
  assert (Hsec : 0 <= p0 / 1000) by (apply Z.div_pos; lia).
  assert (Hd : 0 <= p0 mod 1000 < 1000) by (apply Z.mod_pos_bound; lia).
  unfold in_step. run_M; map_simpl.
  eexists _, _.
  split; [reflexivity |]. split; [reflexivity |].
  repeat split; try lia; try (right; repeat split; lia).
  - constructor.
  - constructor.
Qed.

Lemma playback_S (n : nat) (w : World) :
  playback (S n) w = playback_step (playback n w).
Proof. reflexivity. Qed.

Lemma in_step_playback (s0 : Z) (n : nat) (w : World) :
  in_step s0 w -> in_step s0 (playback n w).
Proof.
  intros Hw. induction n as [| n IH]; [exact Hw |].
  rewrite playback_S. apply in_step_playback_step. exact IH.
Qed.


(** X1.  The bound of the class docstring.  When playback starts at a
    position that is not negative and the player then advances exactly as
    long as the timer waits, every tick the tracker emits comes between 0
    and 30 ms ([offset + max_delta]) after a full second of the playback
    position. *)
Theorem playback_ticks_at_most_30ms_late (n0 h0 n : nat) (p0 : Z) :
  0 <= p0 ->
  Forall (fun t => 0 <= snd t mod 1000 <= 30)
         (emitted (playback n (attach n0 h0 false p0))).
Proof.
  intros Hp0.
  destruct (in_step_playback (p0 / 1000) n _ (in_step_attach n0 h0 p0 Hp0))
    as (id & i & _ & _ & _ & _ & _ & _ & _ & _ & _ & _ & _ & Hlate).
  eapply List.Forall_impl; [| exact Hlate].
  intros t Ht. cbn beta in *.
  pose proof (Z.mod_pos_bound (snd t) 1000 ltac:(lia)). lia.
Qed.

Lemma playback_ticks_at_most_30ms_late_witness :
  let w := playback 4 (attach 1 1 false 0) in
  emitted w = [(tick, 4010); (tick, 3030); (tick, 2020); (tick, 1010)] /\
  Forall (fun t => 0 <= snd t mod 1000 <= 30) (emitted w).
Proof.
  intros w. split; [vm_compute; reflexivity |].
  apply (playback_ticks_at_most_30ms_late 1 1 4 0). lia.
Defined.



(** ** How the handlers compose *)

(** X3.  Arming and cancelling are idempotent in every world: a second
    [__enable] right after the first arms nothing more, and a second
    [__disable] changes nothing; and in a reachable world a [paused] or
    [unpaused] signal that repeats the previous one leaves tracker, timers
    and histories as they are. *)
Theorem enable_disable_idempotent (w : World) :
  exec __enable (exec __enable w) = exec __enable w /\
  exec __disable (exec __disable w) = exec __disable w /\
  (reachable w ->
   step ev_paused (step ev_paused w) = step ev_paused w /\
   forall p1 p2 : Z,
     step (ev_unpaused p2) (step (ev_unpaused p1) w) =
     exec (set_position p2) (step (ev_unpaused p1) w)).
Proof.
  split; [| split].
  - destruct w as [[o md [id|] prev sg] [srcs nid] [pz pos hs nh] em ar];
      run_M; reflexivity.
  - destruct w as [[o md [id|] prev sg] [srcs nid] [pz pos hs nh] em ar];
      run_M; reflexivity.
  - intros Hr. apply reachable_shape in Hr.
    destruct Hr; split; try intros p1 p2; run_M; map_simpl; reflexivity.
Qed.

Lemma enable_disable_idempotent_witness :
  let w := attach 1 1 true 300 in
  reachable w /\
  size (sources (glib (run [ev_unpaused 400; ev_unpaused 450] w))) = 1%nat /\
  step (ev_unpaused 450) (step (ev_unpaused 400) w) =
  exec (set_position 450) (step (ev_unpaused 400) w).
Proof.
  intros w.
  destruct (enable_disable_idempotent w) as (_ & _ & Hsignals).
  split; [apply reach_attach |]. split; [vm_compute; reflexivity |].
  exact (proj2 (Hsignals (reach_attach 1 1 true 300)) 400 450).
Defined.

(** X4.  [restart] does not look at the pause flag.  In every reachable
    world it leaves exactly one source, armed with
    1010 - (position mod 1000) under a fresh id, and touches neither the
    last ticked second nor the tick history; called while the player is
    paused it therefore arms a wake-up although playback stands still. *)
Theorem restart_arms_whatever_the_pause_flag (w : World) :
  reachable w ->
  let w' := exec restart w in
  let fresh := 1000 + 10 - position (player w) mod 1000 in
  source_id (self w') = Some (next_source_id (glib w)) /\
  sources (glib w') = {[ next_source_id (glib w) := mkSource fresh fresh ]} /\
  armed w' = (fresh, position (player w)) :: armed w /\
  player w' = player w /\
  tick_prev_sec (self w') = tick_prev_sec (self w) /\
  emitted w' = emitted w.
Proof.
  intros Hr. apply reachable_shape in Hr.
  destruct Hr; run_M; map_simpl; repeat split; reflexivity.
Qed.

Lemma restart_arms_whatever_the_pause_flag_witness :
  let w := attach 1 1 true 300 in
  reachable w /\
  paused (player (exec restart w)) = true /\
  pending_interval w = None /\
  pending_interval (exec restart w) = Some 710.
Proof.
  intros w.
  destruct (restart_arms_whatever_the_pause_flag w (reach_attach 1 1 true 300))
    as (_ & _ & _ & Hplayer & _).
  split; [apply reach_attach |].
  split; [rewrite Hplayer; reflexivity |].
  split; vm_compute; reflexivity.
Defined.

Lemma step_ticks_nonzero (w : World) (e : Event) :
  shape w ->
  emitted (step e w) = emitted w \/
  exists p, emitted (step e w) = (tick, p) :: emitted w /\ p / 1000 <> 0.
Proof.
  intros H; destruct H; destruct e; run_M; guards; map_simpl.
  all: first [left; reflexivity | right; eexists; split; [reflexivity | tauto]].
Qed.

(** X5.  No tick is ever emitted for second 0: in every reachable world,
    whatever events led to it, each entry of the tick history is a tick
    at a position whose second is not 0. *)
Theorem never_ticks_in_second_zero (w : World) :
  reachable w ->
  Forall (fun t => fst t = tick /\ snd t / 1000 <> 0) (emitted w).
Proof.
  induction 1 as [n0 h0 paused0 pos0 | w e Hr IH].
  - destruct paused0; unfold_M; constructor.
  - destruct (step_ticks_nonzero w e (reachable_shape w Hr))
      as [-> | (p & -> & Hp)]; [exact IH |].
    apply List.Forall_cons; [split; [reflexivity | exact Hp] | exact IH].
Qed.

Lemma never_ticks_in_second_zero_witness :
  let w := run [ev_timeout 1 400; ev_timeout 2 1010; ev_seek 200 200;
                ev_timeout 3 900; ev_timeout 4 1012]
               (attach 1 1 false 0) in
  reachable w /\
  emitted w = [(tick, 1012); (tick, 1010)] /\
  Forall (fun t => fst t = tick /\ snd t / 1000 <> 0) (emitted w).
Proof.
  intros w.
  assert (Hr : reachable w) by (do 5 apply reach_step; apply reach_attach).
  split; [exact Hr |]. split; [vm_compute; reflexivity |].
  exact (never_ticks_in_second_zero w Hr).
Defined.

(** X6.  A seek while the player is paused only moves the baseline: no
    timer is armed or removed and nothing is emitted, the last ticked
    second becomes floor(seek / 1000); after the resume the wake-up is
    armed from the position read then, and its firing is silent within
    the second of the seek target and ticks in any other second but 0. *)
Theorem seek_while_paused_moves_baseline_only (w : World) (seek pos p q : Z) :
  reachable w ->
  attached w ->
  paused (player w) = true ->
  let w1 := step (ev_seek seek pos) w in
  let w2 := step (ev_unpaused p) w1 in
  glib w1 = glib w /\
  source_id (self w1) = None /\
  armed w1 = armed w /\
  emitted w1 = emitted w /\
  tick_prev_sec (self w1) = seek / 1000 /\
  pending_interval w2 = Some (1000 + 10 - p mod 1000) /\
  (q / 1000 = seek / 1000 -> silent w2 (fire q w2)) /\
  (q / 1000 <> seek / 1000 -> q / 1000 <> 0 -> ticked w2 (fire q w2)).
Proof.
  intros Hr Hatt Hp. apply reachable_shape in Hr.
  unfold attached, silent, ticked in *.
  destruct Hr; cbn [paused player handlers] in Hp, Hatt;
    try discriminate; try congruence.
  repeat split; try intros Hq; try intros Hq0.
  all: run_M; guards; map_simpl; try reflexivity; try tauto.
Qed.

Lemma seek_while_paused_moves_baseline_only_witness :
  let w := attach 1 1 true 300 in
  let w2 := step (ev_unpaused 5002) (step (ev_seek 5000 5000) w) in
  reachable w /\ attached w /\ paused (player w) = true /\
  pending_interval w2 = Some 1008 /\
  silent w2 (fire 5900 w2).
Proof.
  intros w w2.
  assert (Hatt : attached w) by (vm_compute; discriminate).
  destruct (seek_while_paused_moves_baseline_only w 5000 5000 5002 5900
              (reach_attach 1 1 true 300) Hatt eq_refl)
    as (_ & _ & _ & _ & _ & Hpending & Hsilent & _).
  split; [apply reach_attach |]. split; [exact Hatt |].
  split; [reflexivity |]. split; [exact Hpending |].
  apply Hsilent. reflexivity.
Defined.

(** X7.  A pause followed by a resume swaps the timer for a fresh one and
    keeps the baseline: the old source is gone, one new source is armed
    from the position read at the resume, nothing is emitted, the last
    ticked second is what it was, so a firing still within that second
    stays silent. *)
Theorem pause_resume_keeps_baseline (w : World) (p q : Z) :
  reachable w ->
  attached w ->
  paused (player w) = false ->
  let w2 := step (ev_unpaused p) (step ev_paused w) in
  let fresh := 1000 + 10 - p mod 1000 in
  sources (glib w2) = {[ next_source_id (glib w) := mkSource fresh fresh ]} /\
  source_id (self w2) = Some (next_source_id (glib w)) /\
  (forall id, is_Some (sources (glib w) !! id) -> sources (glib w2) !! id = None) /\
  tick_prev_sec (self w2) = tick_prev_sec (self w) /\
  emitted w2 = emitted w /\
  (q / 1000 = tick_prev_sec (self w) -> silent w2 (fire q w2)).
Proof.
  intros Hr Hatt Hp. apply reachable_shape in Hr.
  unfold attached, silent in *.
  destruct Hr; cbn [paused player handlers] in Hp, Hatt;
    try discriminate; try congruence.
  repeat split; try intros Hq.
  all: run_M; guards; map_simpl; try reflexivity; try tauto.
  - intros _. apply lookup_singleton_ne. lia.
  - intros [src Hsrc]. discriminate Hsrc.
Qed.

Lemma pause_resume_keeps_baseline_witness :
  let w := step (ev_timeout 1 1010) (attach 1 1 false 0) in
  let w2 := step (ev_unpaused 1400) (step ev_paused w) in
  reachable w /\ attached w /\ paused (player w) = false /\
  emitted w = [(tick, 1010)] /\
  pending_interval w2 = Some 610 /\
  silent w2 (fire 1999 w2).
Proof.
  intros w w2.
  assert (Hr : reachable w) by (apply reach_step, reach_attach).
  assert (Hatt : attached w) by (vm_compute; discriminate).
  destruct (pause_resume_keeps_baseline w 1400 1999 Hr Hatt eq_refl)
    as (_ & _ & _ & _ & _ & Hsilent).
  split; [exact Hr |]. split; [exact Hatt |]. split; [reflexivity |].
  split; [vm_compute; reflexivity |]. split; [vm_compute; reflexivity |].
  apply Hsilent. reflexivity.
Defined.

(** ** Attaching and detaching on a busy player *)

Lemma exec_bind {A B : Type} (m : M A) (k : A -> M B) (w : World) :
  exec (bind m k) w = exec (k (eval m w)) (exec m w).
Proof. unfold exec, eval, bind. destruct (m w). reflexivity. Qed.

Lemma filter_disconnected (id : nat) (ids : list nat)
    (hs : list (nat * (PlayerSignal * Method))) :
  List.filter (fun h => negb (existsb (Nat.eqb (fst h)) ids))
    (List.filter (fun h => negb (Nat.eqb (fst h) id)) hs) =
  List.filter (fun h => negb (existsb (Nat.eqb (fst h)) (id :: ids))) hs.
Proof.
  induction hs as [| h hs IH]; [reflexivity |].
  cbn [List.filter existsb].
  destruct (Nat.eqb (fst h) id); cbn [negb orb List.filter]; [exact IH |].
  destruct (existsb (Nat.eqb (fst h)) ids); cbn [negb]; [exact IH |].
  f_equal. exact IH.
Qed.

Lemma filter_none_listed (hs : list (nat * (PlayerSignal * Method))) :
  List.filter (fun h => negb (existsb (Nat.eqb (fst h)) [])) hs = hs.
Proof.
  induction hs as [| h hs IH]; [reflexivity |].
  cbn [List.filter existsb negb]. f_equal. exact IH.
Qed.

(** [disconnect_all] touches nothing but the player's handlers, of which
    it drops those whose id is listed. *)
Lemma disconnect_all_effect (ids : list nat) :
  forall w : World,
    exec (disconnect_all ids) w =
    mkWorld (self w) (glib w)
      (mkPlayer (paused (player w)) (position (player w))
         (List.filter (fun h => negb (existsb (Nat.eqb (fst h)) ids))
            (handlers (player w)))
         (next_handler_id (player w)))
      (emitted w) (armed w).
Proof.
  induction ids as [| id ids IH]; intros w.
  - destruct w as [t l [pz pos hs nh] em ar].
    cbn [disconnect_all self glib player emitted armed paused position
         handlers next_handler_id].
    rewrite filter_none_listed. reflexivity.
  - cbn [disconnect_all]. rewrite exec_bind, IH.
    destruct w as [t l [pz pos hs nh] em ar].
    unfold exec, disconnect.
    cbn [snd self glib player emitted armed paused position handlers
         next_handler_id].
    rewrite filter_disconnected. reflexivity.
Qed.

Lemma filter_keeps_older (hs : list (nat * (PlayerSignal * Method)))
    (nh : nat) (ids : list nat) :
  Forall (fun h => (fst h < nh)%nat) hs ->
  Forall (fun id => (nh <= id)%nat) ids ->
  List.filter (fun h => negb (existsb (Nat.eqb (fst h)) ids)) hs = hs.
Proof.
  intros Hhs Hids. induction Hhs as [| h hs Hh _ IH]; [reflexivity |].
  cbn [List.filter].
  assert (Hnot : existsb (Nat.eqb (fst h)) ids = false).
  { apply not_true_is_false. intros Hex.
    apply existsb_exists in Hex as (id & Hin & Heq).
    apply Nat.eqb_eq in Heq. rewrite List.Forall_forall in Hids.
    specialize (Hids id Hin). lia. }
  rewrite Hnot. cbn [negb]. f_equal. exact IH.
Qed.

Lemma disable_effect (w : World) :
  exec __disable w =
  match source_id (self w) with
  | Some id =>
      mkWorld (mkTracker (offset (self w)) (max_delta (self w)) None
                 (tick_prev_sec (self w)) (sigs (self w)))
              (mkMainLoop (delete id (sources (glib w)))
                 (next_source_id (glib w)))
              (player w) (emitted w) (armed w)
  | None => w
  end.
Proof.
  destruct w as [[o md [id|] prev sg] [srcs nid] p em ar]; reflexivity.
Qed.

Lemma destroy_effect (w : World) :
  exec destroy w =
  let w1 := exec __disable w in
  mkWorld (self w1) (glib w1)
    (mkPlayer (paused (player w1)) (position (player w1))
       (List.filter
          (fun h => negb (existsb (Nat.eqb (fst h)) (sigs (self w1))))
          (handlers (player w1)))
       (next_handler_id (player w1)))
    (emitted w1) (armed w1).
Proof.
  unfold destroy. rewrite exec_bind, exec_bind, disconnect_all_effect.
  reflexivity.
Qed.

Lemma init_effect t srcs nid pz pos hs nh em ar :
  let i := 1000 + 10 - pos mod 1000 in
  exec __init__
    (mkWorld t (mkMainLoop srcs nid) (mkPlayer pz pos hs nh) em ar) =
  mkWorld
    (mkTracker 10 20 (if pz then None else Some nid) 0 (handler_ids nh))
    (mkMainLoop (if pz then srcs else <[nid := mkSource i i]> srcs)
                (if pz then nid else S nid))
    (mkPlayer pz pos (hs ++ connections nh) (S (S (S (S nh)))))
    em
    (if pz then ar else (i, pos) :: ar).
Proof.
  intros i. subst i.
  replace (hs ++ connections nh)
    with ((((hs ++ [(nh, (sig_paused, m_disable))])
              ++ [(S nh, (sig_unpaused, m_enable))])
             ++ [(S (S nh), (sig_seek, m_seek))])
            ++ [(S (S (S nh)), (sig_song_started, m_song_started))])
    by (rewrite <- !app_assoc; reflexivity).
  destruct pz; unfold_M; reflexivity.
Qed.

Lemma filter_drops_connections (nh : nat) :
  List.filter (fun h => negb (existsb (Nat.eqb (fst h)) (handler_ids nh)))
    (connections nh) = [].
Proof.
  unfold handler_ids, connections.
  cbn [List.filter existsb fst].
  rewrite !Nat.eqb_refl. cbn [orb negb].
  rewrite !orb_true_r. reflexivity.
Qed.

(** X8.  Constructing a tracker and destroying it again is a round trip
    for the collaborators.  On a player that already has handlers (with
    ids below the next free one) and a main loop that already has sources
    (none under the next free id), whether the player is paused or not,
    [__init__] followed by [destroy] leaves exactly the handlers and the
    sources that were there, and nothing has been emitted. *)
Theorem init_destroy_round_trip (w0 : World) :
  sources (glib w0) !! next_source_id (glib w0) = None ->
  Forall (fun h => (fst h < next_handler_id (player w0))%nat)
         (handlers (player w0)) ->
  let w := exec destroy (exec __init__ w0) in
  handlers (player w) = handlers (player w0) /\
  sources (glib w) = sources (glib w0) /\
  source_id (self w) = None /\
  emitted w = emitted w0.
Proof.
  intros Hfresh Hold w. subst w.
  destruct w0 as [t [srcs nid] [pz pos hs nh] em ar].
  cbn [glib sources next_source_id player handlers next_handler_id] in *.
  assert (Hnew : Forall (fun id => (nh <= id)%nat) (handler_ids nh))
    by (repeat constructor; lia).
  rewrite init_effect, destroy_effect, disable_effect.
  destruct pz;
    cbn [self glib player emitted armed source_id sigs sources handlers
         next_source_id].
  all: rewrite List.filter_app, (filter_keeps_older hs nh _ Hold Hnew),
         filter_drops_connections, app_nil_r.
  all: repeat split; try reflexivity.
  apply delete_insert_id. exact Hfresh.
Qed.

Lemma init_destroy_round_trip_witness :
  let w0 := step (ev_timeout 1 1500) (attach 1 1 false 0) in
  let w := exec destroy (exec __init__ w0) in
  handlers (player w) = connections 1 /\
  sources (glib w) = sources (glib w0) /\
  size (sources (glib (exec __init__ w0))) = 2%nat.
Proof.
  intros w0 w.
  destruct (init_destroy_round_trip w0) as (Hh & Hs & _).
  - vm_compute. reflexivity.
  - vm_compute. repeat constructor.
  - split; [exact Hh |]. split; [exact Hs | vm_compute; reflexivity].
Defined.

(** * Facts about the seek bar *)

Module SeekBarFacts.

Import SeekBar.

Local Open Scope bar_scope.

(** Unfolding of the bar's monadic plumbing; the loops stay folded. *)
Ltac unfold_B :=
  cbv beta iota zeta delta
    [SeekBar.exec SeekBar.outcome SeekBar.bind SeekBar.ret SeekBar.raise
     get_bar put_bar get_widgets put_widgets get_env put_env on_tracker
     set___timer_mode set___pressed_lmb set___source_id
     set___pressed_lmb_scale_value set_children set_box_children
     set_elapsed_label set_remaining_label set_sensitive set_blocked
     signal_handler_block signal_handler_unblock blocked scale_get_value
     scale_call scale_set_value scale_set_range elapsed_set_time
     remaining_set_time elapsed_set_disabled remaining_set_disabled
     config_get config_set SeekBar.timeout_add SeekBar.source_remove
     player_seekable player_has_info player_info_length player_seek
     player_get_position get_name
     _on_timer_clicked _update_labels _update_scale _on_seek
     _on_button_press _on_button_release _on_scale_value_changed
     _on_scale_value_change_request __scroll_timeout _on_tick _update
     _on_song_start _on_destroy SeekBar.__init__ SeekBar.dispatch deliver
     show_value blank packed_in_bar packed_in_box pack_start
     tracker bar widgets env
     _timer_modes c_timer_mode __timer_mode __pressed_lmb __source_id
     __pressed_lmb_scale_value
     children box_children elapsed_label remaining_label sensitive
     blocked_button_press_event blocked_change_value blocked_value_changed
     scale_value scale_calls label_time label_disabled
     config scroll_sources next_scroll_id seekable info seeks
     scroll_interval scroll_value fst snd
     self glib player emitted armed position paused handlers];
  cbn [negb andb orb Nat.pred].

Ltac run_B := unfold_B; repeat (branch_one; unfold_B).

Section Facts.

Context `{Numbers}.

(** ** The loops of [_set_timer_mode] *)

Lemma remove_from_bar_loop (found : list Widget) :
  forall w b c bc el rl sv bp bcv bvc v calls e,
    for_each found remove_from_bar
      (mkGui w b (mkWidgets c bc el rl sv bp bcv bvc v calls) e) =
    (Ok tt,
     mkGui w b
       (mkWidgets (fold_left (fun c elem => strip elem c) found c)
          bc el rl sv bp bcv bvc v calls) e).
Proof.
  induction found as [| elem found IH]; intros; [reflexivity |].
  cbn [for_each fold_left]. unfold SeekBar.bind at 1.
  unfold remove_from_bar, remove_from_box.
  destruct elem; unfold strip at 2; cbn [is_TimeLabel]; run_B; apply IH.
Qed.

Lemma remove_from_box_loop (found : list Widget) :
  forall w b c bc el rl sv bp bcv bvc v calls e,
    for_each found remove_from_box
      (mkGui w b (mkWidgets c bc el rl sv bp bcv bvc v calls) e) =
    (Ok tt,
     mkGui w b
       (mkWidgets c (fold_left (fun c elem => strip elem c) found bc)
          el rl sv bp bcv bvc v calls) e).
Proof.
  induction found as [| elem found IH]; intros; [reflexivity |].
  cbn [for_each fold_left]. unfold SeekBar.bind at 1.
  unfold remove_from_bar, remove_from_box.
  destruct elem; unfold strip at 2; cbn [is_TimeLabel]; run_B; apply IH.
Qed.

Lemma Widget_eqb_eq (a b : Widget) : Widget_eqb a b = true <-> a = b.
Proof. destruct a, b; cbn; split; intros; congruence. Qed.

Lemma filter_filter {A : Type} (f g : A -> bool) (l : list A) :
  List.filter f (List.filter g l) = List.filter (fun x => g x && f x) l.
Proof.
  induction l as [| x l IH]; [reflexivity |].
  cbn [List.filter]. destruct (g x); cbn [andb List.filter].
  - destruct (f x); [f_equal |]; exact IH.
  - exact IH.
Qed.

Lemma strip_all (found : list Widget) :
  forall container : list Widget,
    forallb is_TimeLabel found = true ->
    fold_left (fun c elem => strip elem c) found container =
    List.filter (fun w => negb (existsb (Widget_eqb w) found)) container.
Proof.
  induction found as [| elem found IH]; intros container Hlabels.
  - cbn [fold_left existsb negb].
    induction container as [| w c IHc]; [reflexivity |].
    cbn [List.filter]. f_equal. exact IHc.
  - cbn [forallb] in Hlabels. apply andb_true_iff in Hlabels as [He Hrest].
    cbn [fold_left]. rewrite (IH _ Hrest).
    unfold strip. rewrite He. unfold remove. rewrite filter_filter.
    apply List.filter_ext. intros w. cbn [existsb].
    rewrite negb_orb. reflexivity.
Qed.

(** The removal loop takes every time label out of the container it reads,
    and nothing else. *)
Lemma strip_found (container : list Widget) :
  fold_left (fun c elem => strip elem c) (find_widgets container) container =
  unlabelled container.
Proof.
  rewrite strip_all.
  - unfold unlabelled. apply List.filter_ext_in. intros w Hin. f_equal.
    destruct (is_TimeLabel w) eqn:Hw.
    + apply existsb_exists. exists w. split.
      * unfold find_widgets. apply filter_In. split; assumption.
      * apply Widget_eqb_eq. reflexivity.
    + apply not_true_is_false. intros Hex.
      apply existsb_exists in Hex as (x & Hx & Heq).
      apply Widget_eqb_eq in Heq. subst x.
      unfold find_widgets in Hx. apply filter_In in Hx as [_ Hx]. congruence.
  - unfold find_widgets. apply forallb_forall. intros x Hx.
    apply filter_In in Hx as [_ Hx]. exact Hx.
Qed.

(** What [_set_timer_mode] does, with the loops resolved. *)
Lemma set_timer_mode_effect (mode : string) :
  forall w tm ctm m0 pl sid pv c bc el rl sv bp bcv bvc v calls
         cfg ss nsi sk inf sks,
    _set_timer_mode mode
      (mkGui w (mkBar tm ctm m0 pl sid pv)
         (mkWidgets c bc el rl sv bp bcv bvc v calls)
         (mkEnv cfg ss nsi sk inf sks)) =
    (Ok tt,
     mkGui w (mkBar tm ctm mode pl sid pv)
       (mkWidgets (unlabelled c ++ packed_in_bar mode)
          (unlabelled bc ++ packed_in_box mode)
          el rl sv bp bcv bvc v calls)
       (mkEnv (<[("plugins", ctm) := mode]> cfg) ss nsi sk inf sks)).
Proof.
  intros. unfold _set_timer_mode.
  unfold SeekBar.bind at 1. unfold get_widgets at 1. cbv iota beta.
  unfold SeekBar.bind at 1. cbn [widgets children].
  rewrite remove_from_bar_loop, strip_found.
  unfold SeekBar.bind at 1. unfold get_widgets at 1. cbv iota beta.
  unfold SeekBar.bind at 1. cbn [widgets box_children].
  rewrite remove_from_box_loop, strip_found.
  run_B; rewrite ?app_nil_r; reflexivity.
Qed.

Lemma no_label_unlabelled (label : Widget) (container : list Widget) :
  is_TimeLabel label = true ->
  List.filter (Widget_eqb label) (unlabelled container) = [].
Proof.
  intros Hlabel. unfold unlabelled. rewrite filter_filter.
  induction container as [| w c IH]; [reflexivity |].
  cbn [List.filter].
  destruct w, label; cbn in *; try discriminate; exact IH.
Qed.

(** X9.  The layout [_set_timer_mode] leaves, whatever the two containers
    held before: the children that are not time labels stay, in their
    order; behind them come the labels of the mode ([both]: elapsed in the
    box and remaining in the bar; [remaining] or [elapsed]: that label in
    the box; any other string: no label at all); no time label ends up
    with two parents or twice in one; the mode, known or not, is stored
    and saved in the configuration; and the method does not fail. *)
Theorem set_timer_mode_layout (mode : string) (g : Gui) :
  let g' := SeekBar.exec (_set_timer_mode mode) g in
  outcome (_set_timer_mode mode) g = Ok tt /\
  children (widgets g') =
    unlabelled (children (widgets g)) ++ packed_in_bar mode /\
  box_children (widgets g') =
    unlabelled (box_children (widgets g)) ++ packed_in_box mode /\
  (forall label,
     is_TimeLabel label = true ->
     (length (List.filter (Widget_eqb label)
                (children (widgets g') ++ box_children (widgets g'))) <= 1)%nat) /\
  __timer_mode (bar g') = mode /\
  config (env g') !! ("plugins", c_timer_mode (bar g)) = Some mode.
Proof.
  destruct g as [w [tm ctm m0 pl sid pv]
                   [c bc el rl sv bp bcv bvc v calls]
                   [cfg ss nsi sk inf sks]].
  unfold SeekBar.exec, outcome. rewrite set_timer_mode_effect.
  cbn [fst snd widgets children box_children bar __timer_mode c_timer_mode
       env config].
  repeat split.
  - intros label Hlabel.
    rewrite !List.filter_app, !no_label_unlabelled by exact Hlabel.
    unfold packed_in_bar, packed_in_box.
    destruct (String.eqb mode "both"), (String.eqb mode "remaining"),
      (String.eqb mode "elapsed"), label; cbn; try discriminate; lia.
  - apply lookup_insert_eq.
Qed.






Ltac step_init :=
  first
    [ match goal with
      | |- context [list_contains ?s ?l] => destruct (list_contains s l) eqn:?
      end
    | rewrite set_timer_mode_effect
    | match goal with
      | |- context [SynchronizedTimeTracker.__init__ ?w0] =>
          destruct (SynchronizedTimeTracker.__init__ w0)
      end
    | branch_one ];
  unfold_B.

Ltac run_init := unfold_B; repeat step_init.

Lemma chosen_mode_valid (found : option string) :
  In (chosen_mode found) timer_modes.
Proof.
  unfold chosen_mode. destruct found as [mode |]; [| cbn; tauto].
  destruct (list_contains mode timer_modes) eqn:Hc; [| cbn; tauto].
  unfold list_contains in Hc. apply existsb_exists in Hc as (x & Hx & Heq).
  apply String.eqb_eq in Heq. subst x. exact Hx.
Qed.

Lemma chosen_mode_known (mode : string) :
  In mode timer_modes -> chosen_mode (Some mode) = mode.
Proof.
  intros [<- | [<- | [<- | []]]]; reflexivity.
Qed.

Lemma init_timer_mode (name : string) (w : World) (e : Env) :
  let key := ("plugins", String.append name "_timer_mode") in
  let g' := SeekBar.exec (SeekBar.__init__ name) (blank w e) in
  let mode := chosen_mode (config e !! key) in
  __timer_mode (bar g') = mode /\
  _timer_modes (bar g') = timer_modes /\
  c_timer_mode (bar g') = String.append name "_timer_mode" /\
  config (env g') = <[key := mode]> (config e) /\
  children (widgets g') = w_scale :: packed_in_bar mode /\
  box_children (widgets g') = packed_in_box mode /\
  blocked_value_changed (widgets g') = 1%nat /\
  blocked_button_press_event (widgets g') = 0%nat /\
  blocked_change_value (widgets g') = 0%nat /\
  __pressed_lmb (bar g') = false /\
  __source_id (bar g') = None /\
  __pressed_lmb_scale_value (bar g') = None /\
  seekable (env g') = seekable e.
Proof.
  intros key g' mode. subst key g' mode.
  destruct e as [cfg ss nsi sk inf sks].
  unfold chosen_mode, timer_modes.
  destruct sk, inf; unfold SeekBar.exec; run_init.
  all: rewrite ?app_nil_r; repeat split; try reflexivity.
  all: apply insert_insert_eq.
Qed.

(** X11.  The timer mode survives a restart.  [__init__] takes the mode
    from the configuration when the saved value is one of the three modes
    and falls back to [both] when the option is missing or holds anything
    else; either way the mode it settles on is saved, the labels are laid
    out for it behind the scale, and only the [value-changed] handler
    starts blocked.  So after [_set_timer_mode] has saved a mode of the
    list, a bar constructed on that configuration comes up in that
    mode. *)
Theorem timer_mode_survives_restart (name : string) (w : World) (e : Env) :
  let key := ("plugins", String.append name "_timer_mode") in
  let g' := SeekBar.exec (SeekBar.__init__ name) (blank w e) in
  In (__timer_mode (bar g')) timer_modes /\
  (forall mode, config e !! key = Some mode -> In mode timer_modes ->
                __timer_mode (bar g') = mode) /\
  (config e !! key = None -> __timer_mode (bar g') = "both") /\
  (forall mode, config e !! key = Some mode -> ~ In mode timer_modes ->
                __timer_mode (bar g') = "both") /\
  config (env g') !! key = Some (__timer_mode (bar g')) /\
  children (widgets g') = w_scale :: packed_in_bar (__timer_mode (bar g')) /\
  box_children (widgets g') = packed_in_box (__timer_mode (bar g')) /\
  blocked_value_changed (widgets g') = 1%nat /\
  blocked_button_press_event (widgets g') = 0%nat /\
  blocked_change_value (widgets g') = 0%nat /\
  (forall (g : Gui) (mode : string),
     In mode timer_modes ->
     c_timer_mode (bar g) = String.append name "_timer_mode" ->
     config e = config (env (SeekBar.exec (_set_timer_mode mode) g)) ->
     __timer_mode (bar g') = mode).
Proof.
  intros key g'.
  destruct (init_timer_mode name w e)
    as (Hmode & _ & _ & Hcfg & Hbar & Hbox & Hvc & Hbp & Hcv & _).
  fold key g' in Hmode, Hcfg, Hbar, Hbox, Hvc, Hbp, Hcv.
  assert (Hknown : forall mode, config e !! key = Some mode ->
                                In mode timer_modes ->
                                __timer_mode (bar g') = mode).
  { intros mode Hfound Hin. rewrite Hmode, Hfound.
    apply chosen_mode_known. exact Hin. }
  rewrite Hbar, Hbox, Hcfg, Hmode.
  split; [apply chosen_mode_valid |].
  split; [intros mode Hfound Hin; rewrite <- Hmode; auto |].
  split; [intros ->; reflexivity |].
  split.
  { intros mode -> Hnot. unfold chosen_mode.
    destruct (list_contains mode timer_modes) eqn:Hc; [| reflexivity].
    exfalso. apply Hnot. unfold list_contains in Hc.
    apply existsb_exists in Hc as (x & Hx & Heq).
    apply String.eqb_eq in Heq. subst x. exact Hx. }
  split; [apply lookup_insert_eq |].
  repeat split; try assumption.
  intros g mode Hin Hkey Hsaved. rewrite <- Hmode. apply Hknown; [| exact Hin].
  rewrite Hsaved.
  destruct (set_timer_mode_layout mode g) as (_ & _ & _ & _ & _ & Hlook).
  rewrite Hkey in Hlook. exact Hlook.
Qed.

(** ** Scrolling *)

Lemma change_request_effect (value : num) :
  forall w tm ctm m pl sid pv ws cfg ss nsi sk inf sks,
    _on_scale_value_change_request value
      (mkGui w (mkBar tm ctm m pl sid pv) ws
         (mkEnv cfg ss nsi sk inf sks)) =
    (Ok tt,
     mkGui w (mkBar tm ctm m true (Some nsi) pv) ws
       (mkEnv cfg
          (<[nsi := mkScrollSource 200 value]>
             (match sid with Some id => delete id ss | None => ss end))
          (S nsi) sk inf sks)).
Proof.
  intros. destruct sid; run_B; reflexivity.
Qed.

Lemma for_each_app {A : Type} (l1 l2 : list A) (body : A -> B unit) (g : Gui) :
  for_each (l1 ++ l2) body g =
  SeekBar.bind (for_each l1 body) (fun _ => for_each l2 body) g.
Proof.
  revert g. induction l1 as [| x l1 IH]; intros g; [reflexivity |].
  cbn [app for_each]. unfold SeekBar.bind.
  destruct (body x g) as [[[] | e] g1]; [| reflexivity].
  rewrite IH. reflexivity.
Qed.

(** A burst of change requests keeps the sources in order and touches
    only the pending source, the next free id and the pressed flag. *)
Lemma burst_keeps_order (base : gmap nat ScrollSource) (values : list num) :
  forall g : Gui,
    scroll_pending base g ->
    let g' := SeekBar.exec (change_requests values) g in
    outcome (change_requests values) g = Ok tt /\
    scroll_pending base g' /\
    next_scroll_id (env g') = (next_scroll_id (env g) + length values)%nat /\
    tracker g' = tracker g /\ widgets g' = widgets g /\
    seeks (env g') = seeks (env g) /\ seekable (env g') = seekable (env g) /\
    config (env g') = config (env g) /\ info (env g') = info (env g) /\
    __timer_mode (bar g') = __timer_mode (bar g).
Proof.
  unfold change_requests.
  induction values as [| value values IH]; intros g Hpending.
  - cbn. repeat split; try lia; apply Hpending.
  - cbn [for_each length]. unfold SeekBar.exec, outcome, SeekBar.bind.
    destruct g as [w [tm ctm m pl sid pv] ws [cfg ss nsi sk inf sks]].
    rewrite change_request_effect.
    match goal with
    | |- context [for_each values _ ?g1] =>
        destruct (IH g1) as (Hok & Hp' & Hnext & Htk & Hws & Hsk & Hsb & Hcfg
                             & Hinf & Hmode)
    end.
    + unfold scroll_pending in *. destruct Hpending as [Hfree Hheld].
      cbn [bar env __source_id next_scroll_id scroll_sources] in *.
      split; [intros k Hk; apply Hfree; lia |].
      split; [lia |]. split; [apply Hfree; lia |].
      exists value. f_equal.
      destruct sid as [id |]; [| exact Hheld].
      destruct Hheld as (_ & Hnone & v0 & ->).
      apply delete_insert_id. exact Hnone.
    + unfold SeekBar.exec, outcome in *.
      cbn [tracker widgets env bar seeks seekable config info __timer_mode
           next_scroll_id] in *.
      split; [exact Hok |]. split; [exact Hp' |].
      split; [rewrite Hnext; lia |].
      repeat split; assumption.
Qed.

(** X12.  Scroll requests are debounced.  From a bar with no scroll
    timeout pending, any burst of change requests leaves exactly one
    source more than before, armed with 200 ms for the value requested
    last; nothing has been sought yet and a tick changes nothing
    meanwhile.  When that source fires, the player is asked to seek once,
    to the last value times 1000, or not at all if it is not seekable;
    the source is gone, and the bar is neither pressed nor holding a
    source. *)
Theorem scroll_requests_debounced (g : Gui) (values : list num) (value : num) :
  __source_id (bar g) = None ->
  (forall k, (next_scroll_id (env g) <= k)%nat ->
             scroll_sources (env g) !! k = None) ->
  let g1 := SeekBar.exec (change_requests (values ++ [value])) g in
  let id := (next_scroll_id (env g) + length values)%nat in
  let g2 := SeekBar.exec (SeekBar.dispatch id) g1 in
  outcome (change_requests (values ++ [value])) g = Ok tt /\
  __source_id (bar g1) = Some id /\
  scroll_sources (env g1) =
    <[id := mkScrollSource 200 value]> (scroll_sources (env g)) /\
  __pressed_lmb (bar g1) = true /\
  seeks (env g1) = seeks (env g) /\
  SeekBar.exec _on_tick g1 = g1 /\
  outcome (SeekBar.dispatch id) g1 = Ok tt /\
  seeks (env g2) =
    (if seekable (env g) then [num_mul value (int 1000)] else [])
    ++ seeks (env g) /\
  scroll_sources (env g2) = scroll_sources (env g) /\
  __source_id (bar g2) = None /\
  __pressed_lmb (bar g2) = false.
Proof.
  intros Hnone Hfree g1 id g2.
  assert (Hpending : scroll_pending (scroll_sources (env g)) g).
  { split; [exact Hfree |]. rewrite Hnone. reflexivity. }
  destruct (burst_keeps_order _ values g Hpending)
    as (Hok & Hp & Hnext & _ & _ & Hsk & Hsb & _).
  assert (Hg1 : g1 = SeekBar.exec (_on_scale_value_change_request value)
                       (SeekBar.exec (change_requests values) g)).
  { subst g1. unfold change_requests, SeekBar.exec in *.
    rewrite for_each_app. unfold SeekBar.bind, outcome in *.
    destruct (for_each values _on_scale_value_change_request g)
      as [[[] | e] g']; [| discriminate Hok].
    cbn [for_each snd]. unfold SeekBar.bind.
    destruct (_on_scale_value_change_request value g') as [[[] | e] g''];
      reflexivity. }
  assert (Hout : outcome (change_requests (values ++ [value])) g = Ok tt).
  { unfold change_requests, outcome in *.
    rewrite for_each_app. unfold SeekBar.bind.
    destruct (for_each values _on_scale_value_change_request g)
      as [[[] | e] g'] eqn:Hrun; [| discriminate Hok].
    cbn [for_each]. unfold SeekBar.bind.
    destruct g' as [w [tm ctm m pl sid pv] ws [cfg ss nsi sk inf sks]].
    rewrite change_request_effect. reflexivity. }
  split; [exact Hout |].
  subst g2. rewrite Hg1. clear Hg1 Hout g1.
  destruct (SeekBar.exec (change_requests values) g)
    as [w [tm ctm m pl sid pv] ws [cfg ss nsi sk inf sks]].
  destruct Hp as [Hfree' Hheld].
  cbn [bar env __source_id next_scroll_id scroll_sources seeks seekable]
    in *.
  subst id. rewrite <- Hnext, <- Hsk, <- Hsb.
  set (base := scroll_sources (env g)) in *. clearbody base.
  clear Hnext Hsk Hsb Hpending Hfree Hnone Hok.
  assert (Hbase :
    match sid with Some id => delete id ss | None => ss end = base).
  { destruct sid as [id |]; [| exact Hheld].
    destruct Hheld as (_ & Hgone & v0 & ->).
    apply delete_insert_id. exact Hgone. }
  assert (Hn : base !! nsi = None) by (apply Hfree'; lia).
  unfold SeekBar.exec, outcome.
  rewrite change_request_effect, Hbase. cbn [snd].
  clear Hbase Hheld Hfree'.
  destruct sk; unfold_B; rewrite ?lookup_insert_eq; unfold_B;
    rewrite ?delete_insert_id by exact Hn;
    repeat split; reflexivity.
Qed.

(** ** Dragging *)

(** X13.  A drag is a round trip for the handler blocks.  With the
    [value-changed] handler blocked as [__init__] leaves it, a button
    press while the scale shows [v1] marks the bar pressed, blocks the
    press and [change-value] handlers and unblocks [value-changed]; until
    the release a tick changes nothing, a second press is not delivered
    and no change request arms a timeout.  The release while the scale
    shows [v2] does not fail, puts every block count back, clears the
    pressed flag and asks the player to seek exactly when it is seekable
    and [v2] differs from [v1], once, to [v2 * 1000]. *)
Theorem drag_round_trip (g : Gui) (v1 v2 : num) :
  (1 <= blocked_value_changed (widgets g))%nat ->
  let g1 := SeekBar.exec (show_value v1 ;; _on_button_press) g in
  let g2 := SeekBar.exec (show_value v2 ;; _on_button_release) g1 in
  __pressed_lmb (bar g1) = true /\
  blocked h_button_press_event (widgets g1) =
    S (blocked h_button_press_event (widgets g)) /\
  blocked h_change_value (widgets g1) = S (blocked h_change_value (widgets g)) /\
  blocked h_value_changed (widgets g1) =
    Nat.pred (blocked h_value_changed (widgets g)) /\
  SeekBar.exec _on_tick g1 = g1 /\
  SeekBar.exec (deliver h_button_press_event _on_button_press) g1 = g1 /\
  (forall v,
     SeekBar.exec
       (deliver h_change_value (_on_scale_value_change_request v)) g1 = g1) /\
  outcome (show_value v2 ;; _on_button_release) g1 = Ok tt /\
  (forall h, blocked h (widgets g2) = blocked h (widgets g)) /\
  __pressed_lmb (bar g2) = false /\
  seeks (env g2) =
    (if seekable (env g) && num_ne v1 v2
     then [num_mul v2 (int 1000)] else [])
    ++ seeks (env g) /\
  scroll_sources (env g2) = scroll_sources (env g) /\
  __source_id (bar g2) = __source_id (bar g).
Proof.
  destruct g as [w [tm ctm m pl sid pv]
                   [c bc el rl sv bp bcv bvc v calls]
                   [cfg ss nsi sk inf sks]].
  cbn [widgets blocked_value_changed]. intros Hblocked.
  destruct bvc as [| bvc]; [lia |].
  destruct sk; repeat split; try intros v'; try intros h; try destruct h;
    run_B; reflexivity.
Qed.


(** ** Labels and scale *)

(** X15.  A track start shows zero, whatever the player's position still
    says.  With a seekable player and a song, [_on_song_start] does not
    fail, sets the range of the scale to the length of the song, enables
    the labels and the bar, and sets the elapsed label to 0 and the
    remaining label to 0 minus the length: the [ms] of 0 it passes on
    counts as given.  The plain [_update] reads the position instead and
    shows its second. *)
Theorem song_start_shows_zero (g : Gui) (length : num) :
  seekable (env g) = true ->
  info (env g) = Some length ->
  let g' := SeekBar.exec _on_song_start g in
  let target := num_truediv (int 0) (int 1000) in
  outcome _on_song_start g = Ok tt /\
  label_time (elapsed_label (widgets g')) = Some (int 0) /\
  label_time (remaining_label (widgets g')) = Some (num_sub (int 0) length) /\
  label_disabled (elapsed_label (widgets g')) = false /\
  label_disabled (remaining_label (widgets g')) = false /\
  sensitive (widgets g') = true /\
  scale_calls (widgets g') =
    (if num_gt (num_abs (num_sub target (scale_value (widgets g)))) milli
     then [set_value target] else [])
    ++ set_range (int 0) length :: scale_calls (widgets g) /\
  tracker g' = tracker g /\ bar g' = bar g /\ env g' = env g /\
  label_time (elapsed_label (widgets (SeekBar.exec (_update false) g))) =
    Some (int (position (player (tracker g)) / 1000)).
Proof.
  destruct g as [[t l [pz pos hs nh] em ar] [tm ctm m pl sid pv]
                   [c bc el rl sv bp bcv bvc v calls]
                   [cfg ss nsi sk inf sks]].
  cbn [env seekable info]. intros -> ->.
  repeat split; run_B; reflexivity.
Qed.

(** X16.  Without a song there is no length to ask for: [_update_labels]
    raises [TypeError] and leaves the labels alone, and so does a tick
    that is not suppressed.  [_update] avoids the call when the player is
    not seekable: with or without a song it succeeds, sets the range of
    the scale (to the length of the song, or to 1 without one) and its
    value to 0, disables both labels without touching their times and
    makes the bar insensitive. *)
Theorem update_without_song (g : Gui) (song_start : bool) :
  (info (env g) = None ->
     (forall ms, outcome (_update_labels ms) g = Raise TypeError /\
                 SeekBar.exec (_update_labels ms) g = g) /\
     (__pressed_lmb (bar g) = false ->
        outcome _on_tick g = Raise TypeError /\ SeekBar.exec _on_tick g = g)) /\
  (seekable (env g) = false ->
     let g' := SeekBar.exec (_update song_start) g in
     outcome (_update song_start) g = Ok tt /\
     scale_calls (widgets g') =
       set_value (int 0)
       :: set_range (int 0)
            (match info (env g) with Some length => length | None => int 1 end)
       :: scale_calls (widgets g) /\
     label_disabled (elapsed_label (widgets g')) = true /\
     label_disabled (remaining_label (widgets g')) = true /\
     label_time (elapsed_label (widgets g')) =
       label_time (elapsed_label (widgets g)) /\
     label_time (remaining_label (widgets g')) =
       label_time (remaining_label (widgets g)) /\
     sensitive (widgets g') = false).
Proof.
  destruct g as [[t l [pz pos hs nh] em ar] [tm ctm m pl sid pv]
                   [c bc [et ed] [rt rd] sv bp bcv bvc v calls]
                   [cfg ss nsi sk inf sks]].
  cbn [env seekable info bar __pressed_lmb]. split.
  - intros ->. split.
    + intros [ms |]; split; run_B; reflexivity.
    + intros ->. split; run_B; reflexivity.
  - intros ->. destruct inf; repeat split; run_B; reflexivity.
Qed.

(** X17.  Destroying the bar destroys its tracker and nothing else: the
    attributes, the widgets and the sources of the bar are as before.  A
    scroll timeout still pending at that moment is therefore not
    cancelled, and when it fires the player is still asked to seek. *)
Theorem destroy_keeps_scroll_timeout (g : Gui) :
  let g' := SeekBar.exec _on_destroy g in
  outcome _on_destroy g = Ok tt /\
  tracker g' = step ev_destroy (tracker g) /\
  bar g' = bar g /\ widgets g' = widgets g /\ env g' = env g /\
  (forall id src,
     scroll_sources (env g) !! id = Some src ->
     seekable (env g) = true ->
     seeks (env (SeekBar.exec (SeekBar.dispatch id) g')) =
       num_mul (scroll_value src) (int 1000) :: seeks (env g)).
Proof.
  destruct g as [w b ws [cfg ss nsi sk inf sks]].
  change (step ev_destroy (tracker (mkGui w b ws (mkEnv cfg ss nsi sk inf sks))))
    with (snd (SynchronizedTimeTracker.destroy w)).
  unfold SeekBar.exec, outcome, _on_destroy, on_tracker.
  cbn [tracker bar widgets env scroll_sources seekable seeks].
  destruct (SynchronizedTimeTracker.destroy w) as [[] w'].
  cbn [fst snd tracker bar widgets env].
  repeat split.
  intros id src Hsrc ->. destruct b as [tm ctm m pl sid pv].
  unfold_B. rewrite Hsrc. unfold_B. reflexivity.
Qed.


(** ** Seeks and slider moves *)

(** X18.  A seek shows its target.  With a song, [_on_seek] does not
    fail and sets the elapsed label to the second of [ms] and the
    remaining label to that second minus the length, from the [ms] of the
    signal and not from the position of the player; the scale is moved
    only when its value is more than 0.001 away from [ms / 1000].  The
    second shown is the one the tracker takes as its baseline for the
    same signal.  Unlike a tick, a seek is not held back while the slider
    is pressed; when it is not pressed and [ms] is the position of the
    player, seek and tick do the same.  Without a song the seek raises
    [TypeError] before the scale is touched. *)
Theorem seek_shows_target (g : Gui) (ms : Z) :
  let g' := SeekBar.exec (_on_seek ms) g in
  let target := num_truediv (int ms) (int 1000) in
  (forall length,
     info (env g) = Some length ->
     outcome (_on_seek ms) g = Ok tt /\
     label_time (elapsed_label (widgets g')) = Some (int (ms / 1000)) /\
     label_time (remaining_label (widgets g')) =
       Some (num_sub (int (ms / 1000)) length) /\
     label_time (elapsed_label (widgets g')) =
       Some (int (tick_prev_sec
                    (self (snd (SynchronizedTimeTracker.__seek ms (tracker g)))))) /\
     scale_calls (widgets g') =
       (if num_gt (num_abs (num_sub target (scale_value (widgets g)))) milli
        then [set_value target] else [])
       ++ scale_calls (widgets g) /\
     tracker g' = tracker g /\ bar g' = bar g /\ env g' = env g /\
     (__pressed_lmb (bar g) = true -> SeekBar.exec _on_tick g = g) /\
     (__pressed_lmb (bar g) = false ->
      ms = position (player (tracker g)) ->
      SeekBar.exec _on_tick g = g')) /\
  (info (env g) = None ->
     outcome (_on_seek ms) g = Raise TypeError /\ g' = g).
Proof.
  destruct g as [[[o md sid0 prev sg] [srcs nid] [pz pos hs nh] em ar]
                   [tm ctm m pl sid pv]
                   [c bc [et ed] [rt rd] sv bp bcv bvc v calls]
                   [cfg ss nsi sk inf sks]].
  cbn [env info bar __pressed_lmb tracker player position]. split.
  - intros length ->.
    split; [run_B; reflexivity |]. split; [run_B; reflexivity |].
    split; [run_B; reflexivity |].
    split; [destruct pz, sid0; run_B; run_M; reflexivity |].
    split; [run_B; reflexivity |]. split; [run_B; reflexivity |].
    split; [run_B; reflexivity |]. split; [run_B; reflexivity |].
    split; [intros ->; run_B; reflexivity |].
    intros -> ->. run_B; reflexivity.
  - intros ->. split; run_B; reflexivity.
Qed.

(** X19.  The labels follow the slider only during a drag.  While the
    [value-changed] handler is blocked once, as [__init__] leaves it, a
    move of the slider does not reach [_on_scale_value_changed].  After a
    button press the handler is open: a move to [v] sets the elapsed
    label to [v] and the remaining label to [v] minus the length of the
    song, asks for no seek and does not write to the scale; without a
    song it raises [TypeError] and the labels stay.  After the release
    the labels are deaf to the slider again. *)
Theorem labels_follow_slider_while_dragging (g : Gui) (v : num) :
  blocked_value_changed (widgets g) = 1%nat ->
  let move := show_value v ;; deliver h_value_changed _on_scale_value_changed in
  let g1 := SeekBar.exec _on_button_press g in
  let g2 := SeekBar.exec move g1 in
  let g3 := SeekBar.exec _on_button_release g2 in
  SeekBar.exec move g = SeekBar.exec (show_value v) g /\
  (forall length,
     info (env g) = Some length ->
     outcome move g1 = Ok tt /\
     label_time (elapsed_label (widgets g2)) = Some v /\
     label_time (remaining_label (widgets g2)) = Some (num_sub v length) /\
     scale_calls (widgets g2) = scale_calls (widgets g) /\
     seeks (env g2) = seeks (env g)) /\
  (info (env g) = None ->
     outcome move g1 = Raise TypeError /\
     elapsed_label (widgets g2) = elapsed_label (widgets g) /\
     remaining_label (widgets g2) = remaining_label (widgets g)) /\
  (forall v', SeekBar.exec (show_value v' ;;
                            deliver h_value_changed _on_scale_value_changed) g3 =
              SeekBar.exec (show_value v') g3).
Proof.
  destruct g as [[t l [pz pos hs nh] em ar] [tm ctm m pl sid pv]
                   [c bc [et ed] [rt rd] sv bp bcv bvc sval calls]
                   [cfg ss nsi sk inf sks]].
  cbn [widgets blocked_value_changed env info]. intros ->.
  split; [run_B; reflexivity |]. split; [| split].
  - intros length ->. repeat split; run_B; reflexivity.
  - intros ->. repeat split; run_B; reflexivity.
  - intros v'.
    destruct inf, sk; repeat (progress (unfold_B; cbn [Nat.eqb]));
      run_B; first [reflexivity | exfalso; lia].
Qed.

End Facts.

(** ** The theorems at work on the demo bar *)

#[local] Existing Instance rationals.

Example demo_after_init :
  __timer_mode (bar demo) = "both" /\
  children (widgets demo) = [w_scale; w_remaining_label] /\
  box_children (widgets demo) = [w_elapsed_label] /\
  label_time (elapsed_label (widgets demo)) = Some (inject_Z 0) /\
  pending_interval (tracker demo) = Some 1010.
Proof. vm_compute. repeat split; reflexivity. Qed.

Lemma set_timer_mode_layout_witness :
  let g' := SeekBar.exec (_set_timer_mode "remaining") demo in
  children (widgets g') = [w_scale] /\
  box_children (widgets g') = [w_remaining_label] /\
  (length (List.filter (Widget_eqb w_remaining_label)
             (children (widgets g') ++ box_children (widgets g'))) <= 1)%nat.
Proof.
  intros g'.
  destruct (set_timer_mode_layout "remaining" demo)
    as (_ & Hbar & Hbox & Hsingle & _).
  split; [exact Hbar |]. split; [exact Hbox |].
  apply Hsingle. reflexivity.
Defined.


Lemma timer_mode_survives_restart_witness :
  let saved := env (SeekBar.exec (_set_timer_mode "elapsed") demo) in
  let restarted :=
    SeekBar.exec (SeekBar.__init__ "seekbar") (blank (boot 1 1 true 0) saved) in
  In "elapsed" timer_modes /\
  __timer_mode (bar restarted) = "elapsed" /\
  box_children (widgets restarted) = [w_elapsed_label].
Proof.
  intros saved restarted.
  assert (Hin : In "elapsed" timer_modes) by (vm_compute; tauto).
  destruct (timer_mode_survives_restart "seekbar" (boot 1 1 true 0) saved)
    as (_ & _ & _ & _ & _ & _ & Hbox & _ & _ & _ & Hpersist).
  assert (Hmode : __timer_mode (bar restarted) = "elapsed")
    by (apply (Hpersist demo "elapsed" Hin); reflexivity).
  split; [exact Hin |]. split; [exact Hmode |].
  unfold restarted in *. rewrite Hbox, Hmode. reflexivity.
Defined.

Lemma scroll_requests_debounced_witness :
  let burst := [inject_Z 10; inject_Z 12; inject_Z 15] in
  let g1 := SeekBar.exec (change_requests burst) demo in
  let g2 := SeekBar.exec (SeekBar.dispatch 3) g1 in
  __source_id (bar demo) = None /\
  size (scroll_sources (env g1)) = 1%nat /\
  seeks (env g1) = [] /\
  seeks (env g2) = [num_mul (inject_Z 15) (int 1000)] /\
  scroll_sources (env g2) = ∅.
Proof.
  intros burst g1 g2.
  assert (Hnone : __source_id (bar demo) = None) by reflexivity.
  destruct (scroll_requests_debounced demo [inject_Z 10; inject_Z 12]
              (inject_Z 15) Hnone)
    as (_ & _ & _ & _ & Hquiet & _ & _ & Hseek & Hsources & _).
  - intros k _. vm_compute. reflexivity.
  - split; [exact Hnone |]. split; [vm_compute; reflexivity |].
    split; [exact Hquiet |]. split; [exact Hseek | exact Hsources].
Defined.

Lemma drag_round_trip_witness :
  let g1 := SeekBar.exec (show_value (inject_Z 30) ;; _on_button_press) demo in
  let g2 :=
    SeekBar.exec (show_value (inject_Z 42) ;; _on_button_release) g1 in
  (1 <= blocked_value_changed (widgets demo))%nat /\
  blocked h_value_changed (widgets g1) = 0%nat /\
  blocked h_value_changed (widgets g2) = 1%nat /\
  seeks (env g2) = [num_mul (inject_Z 42) (int 1000)].
Proof.
  intros g1 g2.
  assert (Hblocked : (1 <= blocked_value_changed (widgets demo))%nat)
    by (vm_compute; lia).
  destruct (drag_round_trip demo (inject_Z 30) (inject_Z 42) Hblocked)
    as (_ & _ & _ & Hvc & _ & _ & _ & _ & Hback & _ & Hseek & _).
  split; [exact Hblocked |]. split; [exact Hvc |].
  split; [exact (Hback h_value_changed) | exact Hseek].
Defined.


Lemma song_start_shows_zero_witness :
  let late := SeekBar.exec (on_tracker (set_position 61500)) demo in
  seekable (env late) = true /\
  info (env late) = Some (inject_Z 200) /\
  label_time (elapsed_label (widgets (SeekBar.exec _on_song_start late))) =
    Some (inject_Z 0) /\
  label_time (elapsed_label (widgets (SeekBar.exec (_update false) late))) =
    Some (inject_Z 61).
Proof.
  intros late.
  destruct (song_start_shows_zero late (inject_Z 200) eq_refl eq_refl)
    as (_ & Hzero & _ & _ & _ & _ & _ & _ & _ & _ & Hplain).
  split; [reflexivity |]. split; [reflexivity |].
  split; [exact Hzero | exact Hplain].
Defined.

Lemma update_without_song_witness :
  let idle :=
    blank (boot 1 1 true 0)
      (mkEnv (H := rationals) ∅ ∅ 1 false None []) in
  info (env idle) = None /\
  seekable (env idle) = false /\
  outcome (_update_labels None) idle = Raise TypeError /\
  outcome (_update false) idle = Ok tt /\
  sensitive (widgets (SeekBar.exec (_update false) idle)) = false.
Proof.
  intros idle.
  destruct (update_without_song idle false) as (Hlabels & Hupdate).
  destruct (Hlabels eq_refl) as (Hraise & _).
  destruct (Hupdate eq_refl) as (Hok & _ & _ & _ & _ & _ & Hsens).
  split; [reflexivity |]. split; [reflexivity |].
  split; [exact (proj1 (Hraise None)) |]. split; [exact Hok | exact Hsens].
Defined.

Lemma destroy_keeps_scroll_timeout_witness :
  let g1 := SeekBar.exec (_on_scale_value_change_request (inject_Z 90)) demo in
  let g2 := SeekBar.exec _on_destroy g1 in
  scroll_sources (env g1) !! 1%nat = Some (mkScrollSource 200 (inject_Z 90)) /\
  seekable (env g1) = true /\
  sources (glib (tracker g2)) = ∅ /\
  seeks (env (SeekBar.exec (SeekBar.dispatch 1) g2)) =
    [num_mul (inject_Z 90) (int 1000)].
Proof.
  intros g1 g2.
  assert (Hsrc : scroll_sources (env g1) !! 1%nat =
                 Some (mkScrollSource 200 (inject_Z 90)))
    by (vm_compute; reflexivity).
  destruct (destroy_keeps_scroll_timeout g1) as (_ & _ & _ & _ & _ & Hfires).
  split; [exact Hsrc |]. split; [reflexivity |].
  split; [vm_compute; reflexivity |].
  exact (Hfires 1%nat _ Hsrc eq_refl).
Defined.


Lemma seek_shows_target_witness :
  let g' := SeekBar.exec (_on_seek 72500) demo in
  info (env demo) = Some (inject_Z 200) /\
  label_time (elapsed_label (widgets g')) = Some (inject_Z 72) /\
  label_time (remaining_label (widgets g')) =
    Some (num_sub (inject_Z 72) (inject_Z 200)) /\
  tick_prev_sec
    (self (snd (SynchronizedTimeTracker.__seek 72500 (tracker demo)))) = 72.
Proof.
  intros g'.
  destruct (seek_shows_target demo 72500) as [Hsong _].
  destruct (Hsong (inject_Z 200) eq_refl) as (_ & Hel & Hrem & _).
  split; [reflexivity |]. split; [exact Hel |].
  split; [exact Hrem | vm_compute; reflexivity].
Defined.

Lemma labels_follow_slider_while_dragging_witness :
  let move :=
    show_value (inject_Z 42) ;;
    deliver h_value_changed _on_scale_value_changed in
  let g1 := SeekBar.exec _on_button_press demo in
  blocked_value_changed (widgets demo) = 1%nat /\
  SeekBar.exec move demo = SeekBar.exec (show_value (inject_Z 42)) demo /\
  label_time (elapsed_label (widgets (SeekBar.exec move g1))) =
    Some (inject_Z 42) /\
  label_time (remaining_label (widgets (SeekBar.exec move g1))) =
    Some (num_sub (inject_Z 42) (inject_Z 200)).
Proof.
  intros move g1.
  assert (Hblocked : blocked_value_changed (widgets demo) = 1%nat)
    by reflexivity.
  destruct (labels_follow_slider_while_dragging demo (inject_Z 42) Hblocked)
    as (Hdeaf & Hsong & _).
  destruct (Hsong (inject_Z 200) eq_refl) as (_ & Hel & Hrem & _).
  split; [exact Hblocked |]. split; [exact Hdeaf |].
  split; [exact Hel | exact Hrem].
Defined.

End SeekBarFacts.
